(** * Event platform backend: approval, verification and public listing

    A shallow embedding of [main.py] and [schemas.py].  The document store
    is a record of three collections, each an insertion-ordered list of
    documents; every endpoint is a function from the store (and the request)
    to a response and the store that results.  Timestamps are Python
    [datetime] values in UTC; [serialize_doc] renders them with
    [isoformat], and the listing compares the rendered strings. *)

From Stdlib Require Import ZArith NArith Lia Bool List Ascii String.
From Stdlib Require Import Sorted Permutation.
Import ListNotations.

Open Scope string_scope.
Open Scope Z_scope.

(** ** Timestamps *)

(** A [datetime] in UTC, by its components, as Python keeps it. *)
Record datetime : Type := mkDatetime {
  year : N;
  month : N;
  day : N;
  hour : N;
  minute : N;
  second : N;
  microsecond : N
}.

(** The ranges the [datetime] constructor enforces (MINYEAR = 1,
    MAXYEAR = 9999); the length of the month is not needed here. *)
Definition wf_datetime (d : datetime) : bool :=
  ((1 <=? year d) && (year d <=? 9999) &&
   (1 <=? month d) && (month d <=? 12) &&
   (1 <=? day d) && (day d <=? 31) &&
   (hour d <? 24) && (minute d <? 60) && (second d <? 60) &&
   (microsecond d <? 1000000))%N.

(** Lexicographic combination of two comparisons. *)
Definition lex (c1 c2 : comparison) : comparison :=
  match c1 with
  | Eq => c2
  | ne => ne
  end.

(** [datetime.__lt__] and friends, for two values of the same zone: the
    component tuples are compared lexicographically. *)
Definition dt_compare (a b : datetime) : comparison :=
  lex (year a ?= year b)%N
 (lex (month a ?= month b)%N
 (lex (day a ?= day b)%N
 (lex (hour a ?= hour b)%N
 (lex (minute a ?= minute b)%N
 (lex (second a ?= second b)%N
      (microsecond a ?= microsecond b)%N))))).

Definition dt_leb (a b : datetime) : bool :=
  match dt_compare a b with Gt => false | _ => true end.

Definition dt_ltb (a b : datetime) : bool :=
  match dt_compare a b with Lt => true | _ => false end.

Definition dt_le (a b : datetime) : Prop := dt_compare a b <> Gt.
Definition dt_lt (a b : datetime) : Prop := dt_compare a b = Lt.

(** One decimal digit, as a character. *)
Definition digit (n : N) : ascii := ascii_of_N (48 + n mod 10).

(** [zpad w n] is the format [%0wd] for [n < 10 ^ w]: the [w] low decimal
    digits of [n], most significant first. *)
Fixpoint zpad (w : nat) (n : N) : string :=
  match w with
  | O => ""
  | S w' => zpad w' (n / 10) ++ String (digit n) ""
  end.

(** The fraction of [isoformat]: left out when the microsecond is zero. *)
Definition iso_fraction (us : N) : string :=
  if (us =? 0)%N then "" else "." ++ zpad 6 us.

(** [datetime.isoformat()] of a value whose zone is UTC:
    [YYYY-MM-DDTHH:MM:SS[.ffffff]+00:00]. *)
Definition isoformat (d : datetime) : string :=
  zpad 4 (year d) ++ "-" ++ zpad 2 (month d) ++ "-" ++ zpad 2 (day d) ++
  "T" ++ zpad 2 (hour d) ++ ":" ++ zpad 2 (minute d) ++ ":" ++
  zpad 2 (second d) ++ iso_fraction (microsecond d) ++ "+00:00".

(** Python's [<=], [<] and [>] on [str]: code points, lexicographically. *)
Definition str_leb (a b : string) : bool := String.leb a b.
Definition str_ltb (a b : string) : bool := String.ltb a b.
Definition str_gtb (a b : string) : bool := String.ltb b a.

(** ** Entities ([schemas.py]) *)

Module Organization.
Record t : Type := mk {
  name : string;
  email : string;
  password_hash : string;
  verified : bool;
  description : option string;
  website : option string
}.
End Organization.

Module Admin.
Record t : Type := mk {
  email : string;
  password_hash : string;
  name : option string
}.
End Admin.

Module Event.
Record t : Type := mk {
  title : string;
  description : string;
  poster_url : option string;
  google_form_url : option string;
  venue : string;
  event_start : datetime;
  event_end : option datetime;
  registration_start : datetime;
  registration_end : datetime;
  category : string;
  organization_id : string;
  organization_name : option string;
  approved : bool;
  approved_by : option string;
  is_org_verified : option bool
}.

(** The update document [{"$set": {"approved": a, "approved_by": by}}]. *)
Definition set_approval (a : bool) (by_ : string) (e : t) : t :=
  mk (title e) (description e) (poster_url e) (google_form_url e) (venue e)
     (event_start e) (event_end e) (registration_start e)
     (registration_end e) (category e) (organization_id e)
     (organization_name e) a (Some by_) (is_org_verified e).
End Event.

(** ** The document store *)

(** A store key, in its 24-digit hexadecimal form, so that [str] of a key
    is the key itself. *)
Definition oid : Type := string.

(** A stored document: the fields of the entity, the key the store gave
    it and its creation timestamp. *)
Record Doc (A : Type) : Type := mkDoc {
  _id : oid;
  created_at : datetime;
  fields : A
}.
Arguments mkDoc {A} _ _ _.
Arguments _id {A} _.
Arguments created_at {A} _.
Arguments fields {A} _.

Definition Collection (A : Type) : Type := list (Doc A).

(** [db]: the three collections, each in the store's natural order. *)
Record Store : Type := mkStore {
  organization : Collection Organization.t;
  admin : Collection Admin.t;
  event : Collection Event.t
}.

Definition has_id {A : Type} (k : oid) (d : Doc A) : bool :=
  String.eqb (_id d) k.

(** [collection.find_one({"_id": k})]. *)
Definition find_one {A : Type} (k : oid) (c : Collection A) : option (Doc A) :=
  List.find (has_id k) c.

(** [collection.update_one({"_id": k}, {"$set": ...})]: the first document
    with the key is updated; the second component is [matched_count]. *)
Fixpoint update_one {A : Type} (k : oid) (upd : A -> A) (c : Collection A)
  : Collection A * nat :=
  match c with
  | [] => ([], 0%nat)
  | d :: c' =>
      if has_id k d
      then (mkDoc (_id d) (created_at d) (upd (fields d)) :: c', 1%nat)
      else let (c'', n) := update_one k upd c' in (d :: c'', n)
  end.

(** Modelled from the spec: [database.create_document] is imported by
    [main.py] and is not among the sources.  The spec has the store key its
    collections by generated identifiers, assigned at creation, and has
    every event carry a creation timestamp; so the document is appended
    under the fresh key [new_id] with the timestamp [stamp], and the key is
    returned as a string. *)
Definition create_document {A : Type} (new_id : oid) (stamp : datetime)
  (c : Collection A) (data : A) : string * Collection A :=
  (new_id, (c ++ [mkDoc new_id stamp data])%list).

(** ** Responses *)

(** What an endpoint gives back: a body, or [HTTPException]. *)
Inductive Response (A : Type) : Type :=
| Return (body : A)
| HTTPException (status_code : Z) (detail : string).
Arguments Return {A} _.
Arguments HTTPException {A} _ _.

(** The body [{"success": True}]. *)
Record Success : Type := mkSuccess { success : bool }.

Module VerifyOrgRequest.
Record t : Type := mk { org_id : string; verified : bool }.
End VerifyOrgRequest.

Module ApproveEventRequest.
Record t : Type := mk { event_id : string; approve : bool }.
End ApproveEventRequest.

Module EventCreateRequest.
Record t : Type := mk {
  title : string;
  description : string;
  poster_url : option string;
  google_form_url : option string;
  venue : string;
  event_start : datetime;
  event_end : option datetime;
  registration_start : datetime;
  registration_end : datetime;
  category : string;
  organization_token : string
}.
End EventCreateRequest.

(** The body [{"id": event_id, "approved": is_verified}]. *)
Record Created : Type := mkCreated { created_id : string; created_approved : bool }.

Section Endpoints.

(** [bson.objectid.ObjectId] applied to a string: the key it denotes, or
    nothing where the constructor raises. *)
Variable ObjectId : string -> option oid.

Definition set_verified (v : bool) (o : Organization.t) : Organization.t :=
  Organization.mk (Organization.name o) (Organization.email o)
    (Organization.password_hash o) v (Organization.description o)
    (Organization.website o).

(** [POST /admin/verify-organization]. *)
Definition verify_organization (db : Store) (payload : VerifyOrgRequest.t)
  : Response Success * Store :=
  match ObjectId (VerifyOrgRequest.org_id payload) with
  | None => (HTTPException 400 "Invalid organization id", db)
  | Some oid_ =>
      let (orgs, matched_count) :=
        update_one oid_ (set_verified (VerifyOrgRequest.verified payload))
          (organization db) in
      let db' := mkStore orgs (admin db) (event db) in
      if Nat.eqb matched_count 0
      then (HTTPException 404 "Organization not found", db')
      else (Return (mkSuccess true), db')
  end.

(** [POST /events].  [new_id] is the key the store generates for the
    document and [stamp] the instant of its creation. *)
Definition create_event (new_id : oid) (stamp : datetime) (db : Store)
  (payload : EventCreateRequest.t) : Response Created * Store :=
  match ObjectId (EventCreateRequest.organization_token payload) with
  | None => (HTTPException 401 "Invalid organization token", db)
  | Some org_oid =>
      match find_one org_oid (organization db) with
      | None => (HTTPException 401 "Invalid organization token", db)
      | Some org =>
          let is_verified := Organization.verified (fields org) in
          let event_ :=
            Event.mk (EventCreateRequest.title payload)
              (EventCreateRequest.description payload)
              (EventCreateRequest.poster_url payload)
              (EventCreateRequest.google_form_url payload)
              (EventCreateRequest.venue payload)
              (EventCreateRequest.event_start payload)
              (EventCreateRequest.event_end payload)
              (EventCreateRequest.registration_start payload)
              (EventCreateRequest.registration_end payload)
              (EventCreateRequest.category payload)
              (_id org)
              (Some (Organization.name (fields org)))
              is_verified
              None
              (Some is_verified) in
          let (event_id, events) :=
            create_document new_id stamp (event db) event_ in
          (Return (mkCreated event_id is_verified),
           mkStore (organization db) (admin db) events)
      end
  end.

(** [POST /admin/approve-event]. *)
Definition approve_event (db : Store) (payload : ApproveEventRequest.t)
  : Response Success * Store :=
  match ObjectId (ApproveEventRequest.event_id payload) with
  | None => (HTTPException 400 "Invalid event id", db)
  | Some eid =>
      let (events, matched_count) :=
        update_one eid
          (Event.set_approval (ApproveEventRequest.approve payload) "admin")
          (event db) in
      let db' := mkStore (organization db) (admin db) events in
      if Nat.eqb matched_count 0
      then (HTTPException 404 "Event not found", db')
      else (Return (mkSuccess true), db')
  end.

End Endpoints.

(** ** The public listing *)

(** An event document after [serialize_doc]: the key has moved to [id] as
    a string and every [datetime] field is its [isoformat] string. *)
Module SerializedEvent.
Record t : Type := mk {
  id : string;
  created_at : string;
  title : string;
  description : string;
  poster_url : option string;
  google_form_url : option string;
  venue : string;
  event_start : string;
  event_end : option string;
  registration_start : string;
  registration_end : string;
  category : string;
  organization_id : string;
  organization_name : option string;
  approved : bool;
  approved_by : option string;
  is_org_verified : option bool
}.
End SerializedEvent.

(** [serialize_doc] on an event document.  A stored document always has
    its key, so the guard on an empty document never fires.  The stored
    instants are UTC, which is what [astimezone(timezone.utc)] leaves. *)
Definition serialize_doc (doc : Doc Event.t) : SerializedEvent.t :=
  let e := fields doc in
  SerializedEvent.mk (_id doc) (isoformat (created_at doc))
    (Event.title e) (Event.description e) (Event.poster_url e)
    (Event.google_form_url e) (Event.venue e)
    (isoformat (Event.event_start e))
    (option_map isoformat (Event.event_end e))
    (isoformat (Event.registration_start e))
    (isoformat (Event.registration_end e))
    (Event.category e) (Event.organization_id e)
    (Event.organization_name e) (Event.approved e) (Event.approved_by e)
    (Event.is_org_verified e).

(** The comparison operators the query uses on timestamps. *)
Inductive RangeOp : Type := op_lte | op_gte | op_gt | op_lt.

Definition range_holds (c : RangeOp * datetime) (v : datetime) : bool :=
  match fst c with
  | op_lte => dt_leb v (snd c)
  | op_gte => dt_leb (snd c) v
  | op_gt => dt_ltb (snd c) v
  | op_lt => dt_ltb v (snd c)
  end.

(** The filter document [q]: a key that is absent is [None]. *)
Record Query : Type := mkQuery {
  q_approved : bool;
  q_category : option string;
  q_registration_start : option (RangeOp * datetime);
  q_registration_end : option (RangeOp * datetime)
}.

Definition opt_holds {A : Type} (c : option A) (p : A -> bool) : bool :=
  match c with
  | None => true
  | Some x => p x
  end.

(** Whether a stored event matches the filter document. *)
Definition matches (q : Query) (d : Doc Event.t) : bool :=
  Bool.eqb (Event.approved (fields d)) (q_approved q) &&
  opt_holds (q_category q) (String.eqb (Event.category (fields d))) &&
  opt_holds (q_registration_start q)
    (fun c => range_holds c (Event.registration_start (fields d))) &&
  opt_holds (q_registration_end q)
    (fun c => range_holds c (Event.registration_end (fields d))).

(** Truthiness of an [Optional[str]]: [None] and the empty string are
    false. *)
Definition truthy (s : option string) : bool :=
  match s with
  | None => false
  | Some s' => negb (String.eqb s' "")
  end.

(** [o == s] for an [Optional[str]] and a string literal. *)
Definition is_str (o : option string) (s : string) : bool :=
  match o with
  | None => false
  | Some x => String.eqb x s
  end.

(** The filter document [list_events] builds. *)
Definition build_query (now : datetime) (category registration_window : option string)
  : Query :=
  let q_cat := if truthy category then category else None in
  if is_str registration_window "open"
  then mkQuery true q_cat (Some (op_lte, now)) (Some (op_gte, now))
  else if is_str registration_window "upcoming"
  then mkQuery true q_cat (Some (op_gt, now)) None
  else if is_str registration_window "closed"
  then mkQuery true q_cat None (Some (op_lt, now))
  else mkQuery true q_cat None None.

(** [cursor.sort]: a stable insertion sort by a key order. *)
Fixpoint insert_by {A : Type} (leb : A -> A -> bool) (x : A) (l : list A) : list A :=
  match l with
  | [] => [x]
  | y :: l' => if leb x y then x :: l else y :: insert_by leb x l'
  end.

Definition sort_by {A : Type} (leb : A -> A -> bool) (l : list A) : list A :=
  fold_right (insert_by leb) [] l.

(** The key order of [[("registration_start", 1), ("event_start", 1)]]. *)
Definition time_leb (a b : Doc Event.t) : bool :=
  match dt_compare (Event.registration_start (fields a))
                   (Event.registration_start (fields b)) with
  | Lt => true
  | Eq => dt_leb (Event.event_start (fields a)) (Event.event_start (fields b))
  | Gt => false
  end.

(** The key order of [("created_at", -1)]. *)
Definition recent_leb (a b : Doc Event.t) : bool :=
  dt_leb (created_at b) (created_at a).

Definition apply_sort (sort : option string) (c : list (Doc Event.t))
  : list (Doc Event.t) :=
  if is_str sort "time" then sort_by time_leb c
  else if is_str sort "recent" then sort_by recent_leb c
  else c.

(** [min(max(limit, 1), 500)]. *)
Definition clamp_limit (limit : Z) : Z := Z.min (Z.max limit 1) 500.

(** The cursor after filter, sort and limit: the candidate set. *)
Definition candidates (db : Store) (now : datetime)
  (category sort registration_window : option string) (limit : Z)
  : list (Doc Event.t) :=
  firstn (Z.to_nat (clamp_limit limit))
    (apply_sort sort
       (filter (matches (build_query now category registration_window))
          (event db))).

Definition is_open (now : string) (d : SerializedEvent.t) : bool :=
  str_leb (SerializedEvent.registration_start d) now &&
  str_leb now (SerializedEvent.registration_end d).

Definition is_upcoming (now : string) (d : SerializedEvent.t) : bool :=
  str_gtb (SerializedEvent.registration_start d) now.

Definition is_closed (now : string) (d : SerializedEvent.t) : bool :=
  str_ltb (SerializedEvent.registration_end d) now.

(** The body of [GET /events]. *)
Record Listing : Type := mkListing {
  open : list SerializedEvent.t;
  upcoming : list SerializedEvent.t;
  closed : list SerializedEvent.t;
  count : nat
}.

(** [GET /events], with [now] the instant [datetime.now(timezone.utc)]
    gives. *)
Definition list_events (db : Store) (now : datetime)
  (category sort registration_window : option string) (limit : Z) : Listing :=
  let docs :=
    map serialize_doc (candidates db now category sort registration_window limit) in
  let open_events := filter (is_open (isoformat now)) docs in
  let upcoming_events := filter (is_upcoming (isoformat now)) docs in
  let closed_events := filter (is_closed (isoformat now)) docs in
  mkListing open_events upcoming_events closed_events (List.length docs).

(** The defaults of the signature: [sort = "time"], [limit = 100]. *)
Definition default_sort : option string := Some "time".
Definition default_limit : Z := 100.

(** [GET /events] as the HTTP layer calls it: a parameter the query
    string leaves out takes its default. *)
Definition get_events (db : Store) (now : datetime)
  (category sort registration_window : option string) (limit : option Z) : Listing :=
  list_events db now category
    (match sort with Some s => Some s | None => default_sort end)
    registration_window
    (match limit with Some l => l | None => default_limit end).

(** ** Orders the listing is specified with *)

(** Ascending by [registration_start], ties broken ascending by
    [event_start]. *)
Definition time_order (a b : Doc Event.t) : Prop :=
  dt_lt (Event.registration_start (fields a)) (Event.registration_start (fields b)) \/
  (Event.registration_start (fields a) = Event.registration_start (fields b) /\
   dt_le (Event.event_start (fields a)) (Event.event_start (fields b))).

(** Descending by creation timestamp. *)
Definition recent_order (a b : Doc Event.t) : Prop :=
  dt_le (created_at b) (created_at a).

(** Two event documents that agree on everything but [approved] and
    [approved_by]. *)
Definition same_but_approval (d d' : Doc Event.t) : Prop :=
  _id d' = _id d /\ created_at d' = created_at d /\
  forall a by_, Event.set_approval a by_ (fields d') = Event.set_approval a by_ (fields d).

(** Two organization documents that agree on everything but [verified]. *)
Definition same_but_verified (d d' : Doc Organization.t) : Prop :=
  _id d' = _id d /\ created_at d' = created_at d /\
  forall v, set_verified v (fields d') = set_verified v (fields d).

(** What three comparisons [a ? b], [b ? c] and [a ? c] of a total order
    satisfy; lexicographic combination keeps it. *)
Definition compare_triple (ab bc ac : comparison) : Prop :=
  (ab = Eq -> ac = bc) /\ (bc = Eq -> ac = ab) /\
  (ab = Lt -> bc = Lt -> ac = Lt) /\ (ab = Gt -> bc = Gt -> ac = Gt).

(** The non-strict order of a three-way comparison. *)
Definition leb_of {A : Type} (cmp : A -> A -> comparison) (a b : A) : bool :=
  match cmp a b with Gt => false | _ => true end.

(** The three-way comparison that [time_leb] decides. *)
Definition time_compare (a b : Doc Event.t) : comparison :=
  lex (dt_compare (Event.registration_start (fields a))
                  (Event.registration_start (fields b)))
      (dt_compare (Event.event_start (fields a)) (Event.event_start (fields b))).

(** ** Sample data *)

Definition is_hex_digit (c : ascii) : bool :=
  let n := N_of_ascii c in
  ((48 <=? n) && (n <=? 57) || (65 <=? n) && (n <=? 70) ||
   (97 <=? n) && (n <=? 102))%N.

Definition lower_hex (c : ascii) : ascii :=
  let n := N_of_ascii c in
  if ((65 <=? n) && (n <=? 70))%N then ascii_of_N (n + 32) else c.

Fixpoint all_chars (p : ascii -> bool) (s : string) : bool :=
  match s with
  | EmptyString => true
  | String c s' => p c && all_chars p s'
  end.

Fixpoint map_chars (f : ascii -> ascii) (s : string) : string :=
  match s with
  | EmptyString => EmptyString
  | String c s' => String (f c) (map_chars f s')
  end.

(** A parser of keys for the examples: the strings of 24 hexadecimal
    digits, read without regard to case. *)
Definition hex_ObjectId (s : string) : option oid :=
  if Nat.eqb (String.length s) 24 && all_chars is_hex_digit s
  then Some (map_chars lower_hex s)
  else None.

Definition jan : datetime := mkDatetime 2024 1 10 9 0 0 0.
Definition feb : datetime := mkDatetime 2024 2 10 9 0 0 0.
Definition mar : datetime := mkDatetime 2024 3 10 9 30 0 250000.
Definition apr : datetime := mkDatetime 2024 4 10 9 0 0 0.

Definition org_a : Doc Organization.t :=
  mkDoc "aaaaaaaaaaaaaaaaaaaaaaaa" jan
    (Organization.mk "Org A" "a@example.org" "h1" false None None).

Definition org_b : Doc Organization.t :=
  mkDoc "bbbbbbbbbbbbbbbbbbbbbbbb" jan
    (Organization.mk "Org B" "b@example.org" "h2" true None None).

Definition root_admin : Doc Admin.t :=
  mkDoc "cccccccccccccccccccccccc" jan
    (Admin.mk "root@example.org" "h3" (Some "Root")).

Definition sample_event (reg_start reg_end : datetime) (cat : string)
  (is_approved : bool) : Event.t :=
  Event.mk "Talk" "A talk" None None "Hall" apr None reg_start reg_end cat
    "aaaaaaaaaaaaaaaaaaaaaaaa" (Some "Org A") is_approved None (Some false).

(** Registration from January to March. *)
Definition ev_regular : Doc Event.t :=
  mkDoc "e00000000000000000000001" jan (sample_event jan mar "tech" true).

(** Registration that ends (January) before it starts (March). *)
Definition ev_inverted : Doc Event.t :=
  mkDoc "e00000000000000000000002" feb (sample_event mar jan "cultural" true).

(** Not yet approved. *)
Definition ev_pending : Doc Event.t :=
  mkDoc "e00000000000000000000003" feb (sample_event jan mar "tech" false).

Definition sample_db : Store :=
  mkStore [org_a; org_b] [root_admin] [ev_regular; ev_inverted; ev_pending].

Definition empty_db : Store := mkStore [] [] [].

Definition sample_create : EventCreateRequest.t :=
  EventCreateRequest.mk "Fair" "A fair" None None "Yard" apr None feb mar
    "cultural" "BBBBBBBBBBBBBBBBBBBBBBBB".

(** ** Accounts and the category directory *)

Module LoginRequest.
Record t : Type := mk { email : string; password : string }.
End LoginRequest.

Module OrgRegisterRequest.
Record t : Type := mk {
  name : string;
  email : string;
  password : string;
  description : option string;
  website : option string
}.
End OrgRegisterRequest.

(** The body [{"id": org_id, "verified": False}]. *)
Record Registered : Type := mkRegistered {
  registered_id : string;
  registered_verified : bool
}.

(** The body of a successful [org_login]. *)
Record OrgSession : Type := mkOrgSession {
  token : string;
  session_email : string;
  session_verified : bool;
  session_name : string
}.

(** The body of [seed_admin]: [{"created": False}] has no [id]. *)
Record Seeded : Type := mkSeeded {
  created : bool;
  seeded_id : option string
}.

Definition org_has_email (e : string) (d : Doc Organization.t) : bool :=
  String.eqb (Organization.email (fields d)) e.

Definition admin_has_email (e : string) (d : Doc Admin.t) : bool :=
  String.eqb (Admin.email (fields d)) e.

Section Accounts.

(** [hashlib.sha256(text.encode()).hexdigest()]. *)
Variable sha256_hash : string -> string.

(** The validation the [Organization] model makes of a [website]: the
    value it keeps, or nothing where it raises. *)
Variable HttpUrl : string -> option string.

Definition validate_website (w : option string) : option (option string) :=
  match w with
  | None => Some None
  | Some u =>
      match HttpUrl u with
      | None => None
      | Some u' => Some (Some u')
      end
  end.

(** [POST /auth/org/register].  [None] is the validation error of the
    model, which the endpoint does not catch. *)
Definition org_register (new_id : oid) (stamp : datetime) (db : Store)
  (payload : OrgRegisterRequest.t) : option (Response Registered * Store) :=
  match List.find (org_has_email (OrgRegisterRequest.email payload))
          (organization db) with
  | Some _ => Some (HTTPException 400 "Email already registered", db)
  | None =>
      match validate_website (OrgRegisterRequest.website payload) with
      | None => None
      | Some w =>
          let org :=
            Organization.mk (OrgRegisterRequest.name payload)
              (OrgRegisterRequest.email payload)
              (sha256_hash (OrgRegisterRequest.password payload))
              false
              (OrgRegisterRequest.description payload)
              w in
          let (org_id, orgs) :=
            create_document new_id stamp (organization db) org in
          Some (Return (mkRegistered org_id false),
                mkStore orgs (admin db) (event db))
      end
  end.

(** [POST /auth/org/login]. *)
Definition org_login (db : Store) (payload : LoginRequest.t)
  : Response OrgSession :=
  match List.find (org_has_email (LoginRequest.email payload))
          (organization db) with
  | None => HTTPException 401 "Invalid credentials"
  | Some org =>
      if negb (String.eqb (Organization.password_hash (fields org))
                 (sha256_hash (LoginRequest.password payload)))
      then HTTPException 401 "Invalid credentials"
      else Return (mkOrgSession (_id org)
                     (Organization.email (fields org))
                     (Organization.verified (fields org))
                     (Organization.name (fields org)))
  end.

(** [POST /seed-admin]. *)
Definition seed_admin (new_id : oid) (stamp : datetime) (db : Store)
  (email password : string) (name : option string) : Seeded * Store :=
  match List.find (admin_has_email email) (admin db) with
  | Some _ => (mkSeeded false None, db)
  | None =>
      let admin_ := Admin.mk email (sha256_hash password) name in
      let (admin_id, admins) := create_document new_id stamp (admin db) admin_ in
      (mkSeeded true (Some admin_id), mkStore (organization db) admins (event db))
  end.

End Accounts.

(** [collection.distinct(key, q)] on the values found: each value once. *)
Definition distinct (l : list string) : list string := nodup string_dec l.

(** [GET /events/categories]. *)
Definition list_categories (db : Store) : list string :=
  let categories :=
    distinct (map (fun d => Event.category (fields d))
                (filter (matches (mkQuery true None None None)) (event db))) in
  sort_by str_leb (filter (fun c => negb (String.eqb c "")) categories).

(** The store keys of a collection, in its order. *)
Definition keys {A : Type} (c : Collection A) : list oid := map _id c.

(** A registration window that does not end before it starts. *)
Definition window_in_order (d : Doc Event.t) : Prop :=
  dt_le (Event.registration_start (fields d)) (Event.registration_end (fields d)).

(** An event document all of whose timestamps are in [datetime]'s ranges. *)
Definition wf_event_doc (d : Doc Event.t) : bool :=
  wf_datetime (created_at d) &&
  wf_datetime (Event.event_start (fields d)) &&
  match Event.event_end (fields d) with
  | None => true
  | Some t => wf_datetime t
  end &&
  wf_datetime (Event.registration_start (fields d)) &&
  wf_datetime (Event.registration_end (fields d)).

Definition sample_register : OrgRegisterRequest.t :=
  OrgRegisterRequest.mk "Org C" "c@example.org" "secret" None None.

(** A stand-in for the digest in the examples. *)
Definition sample_hash (text : string) : string := "h:" ++ text.

(** A stand-in for the validation of a website in the examples. *)
Definition sample_url (u : string) : option string :=
  if String.prefix "http" u then Some u else None.

(** * Properties *)

(** ** Rendered timestamps keep the order of instants *)

Lemma lex_Eq_r (c : comparison) : lex c Eq = c.
Proof. destruct c; reflexivity. Qed.

Lemma length_app (s t : string) :
  String.length (s ++ t) = (String.length s + String.length t)%nat.
Proof. induction s as [|a s IH]; simpl; [reflexivity | now rewrite IH]. Qed.

Lemma compare_refl (s : string) : String.compare s s = Eq.
Proof.
  induction s as [|a s IH]; simpl; [reflexivity|].
  unfold Ascii.compare. now rewrite N.compare_refl.
Qed.

Lemma compare_app (s1 s2 t1 t2 : string) :
  String.length s1 = String.length s2 ->
  String.compare (s1 ++ t1) (s2 ++ t2)
  = lex (String.compare s1 s2) (String.compare t1 t2).
Proof.
  revert s2.
  induction s1 as [|a s1 IH]; intros [|b s2] Hlen; simpl in *;
    try discriminate; [reflexivity|].
  destruct (Ascii.compare a b); simpl; auto.
Qed.

Lemma compare_app_same (s t1 t2 : string) :
  String.compare (s ++ t1) (s ++ t2) = String.compare t1 t2.
Proof. now rewrite compare_app, compare_refl. Qed.

Lemma compare_single (a b : ascii) :
  String.compare (String a "") (String b "") = Ascii.compare a b.
Proof. simpl. now destruct (Ascii.compare a b). Qed.

Lemma zpad_length (w : nat) (n : N) : String.length (zpad w n) = w.
Proof.
  revert n; induction w as [|w IH]; intros n; simpl; [reflexivity|].
  rewrite length_app, IH. simpl. lia.
Qed.

Lemma digit_compare (a b : N) :
  Ascii.compare (digit a) (digit b) = (a mod 10 ?= b mod 10)%N.
Proof.
  unfold Ascii.compare, digit.
  assert (Ha : (a mod 10 < 10)%N) by (apply N.mod_lt; discriminate).
  assert (Hb : (b mod 10 < 10)%N) by (apply N.mod_lt; discriminate).
  rewrite !N_ascii_embedding by lia.
  destruct (N.compare_spec (a mod 10) (b mod 10));
    [apply N.compare_eq_iff | apply N.compare_lt_iff | apply N.compare_gt_iff];
    lia.
Qed.

Lemma divmod_compare (a b : N) :
  lex (a / 10 ?= b / 10)%N (a mod 10 ?= b mod 10)%N = (a ?= b)%N.
Proof.
  pose proof (N.div_mod' a 10) as Ea.
  pose proof (N.div_mod' b 10) as Eb.
  assert (Ha : (a mod 10 < 10)%N) by (apply N.mod_lt; discriminate).
  assert (Hb : (b mod 10 < 10)%N) by (apply N.mod_lt; discriminate).
  revert Ea Eb Ha Hb.
  generalize (a / 10)%N (a mod 10)%N (b / 10)%N (b mod 10)%N.
  intros qa ra qb rb Ea Eb Ha Hb.
  destruct (N.compare_spec qa qb) as [H|H|H]; simpl.
  - destruct (N.compare_spec ra rb) as [H'|H'|H']; symmetry.
    + apply N.compare_eq_iff. lia.
    + apply N.compare_lt_iff. lia.
    + apply N.compare_gt_iff. lia.
  - symmetry. apply N.compare_lt_iff. lia.
  - symmetry. apply N.compare_gt_iff. lia.
Qed.

Lemma zpad_compare (w : nat) (a b : N) :
  (a < 10 ^ N.of_nat w)%N -> (b < 10 ^ N.of_nat w)%N ->
  String.compare (zpad w a) (zpad w b) = (a ?= b)%N.
Proof.
  revert a b; induction w as [|w IH]; intros a b Ha Hb.
  - simpl in *. symmetry. apply N.compare_eq_iff. lia.
  - rewrite Nat2N.inj_succ, N.pow_succ_r' in Ha, Hb.
    simpl zpad.
    rewrite compare_app by (now rewrite !zpad_length).
    rewrite IH by (now apply N.Div0.div_lt_upper_bound).
    rewrite compare_single, digit_compare.
    apply divmod_compare.
Qed.

Lemma iso_fraction_compare (ua ub : N) :
  (ua < 1000000)%N -> (ub < 1000000)%N ->
  String.compare (iso_fraction ua ++ "+00:00") (iso_fraction ub ++ "+00:00")
  = (ua ?= ub)%N.
Proof.
  intros Ha Hb. unfold iso_fraction.
  destruct (N.eqb_spec ua 0) as [Ea|Ea], (N.eqb_spec ub 0) as [Eb|Eb].
  - subst. reflexivity.
  - subst. symmetry. apply N.compare_lt_iff. lia.
  - subst. symmetry. apply N.compare_gt_iff. lia.
  - change (("." ++ zpad 6 ua) ++ "+00:00")
      with ("." ++ (zpad 6 ua ++ "+00:00")).
    change (("." ++ zpad 6 ub) ++ "+00:00")
      with ("." ++ (zpad 6 ub ++ "+00:00")).
    rewrite compare_app_same.
    rewrite compare_app by (now rewrite !zpad_length).
    rewrite compare_refl, lex_Eq_r.
    now apply zpad_compare.
Qed.

Lemma iso_shape_compare (Y M D h m s F Y' M' D' h' m' s' F' : string) :
  String.length Y = String.length Y' ->
  String.length M = String.length M' ->
  String.length D = String.length D' ->
  String.length h = String.length h' ->
  String.length m = String.length m' ->
  String.length s = String.length s' ->
  String.compare
    (Y ++ "-" ++ M ++ "-" ++ D ++ "T" ++ h ++ ":" ++ m ++ ":" ++ s ++ F)
    (Y' ++ "-" ++ M' ++ "-" ++ D' ++ "T" ++ h' ++ ":" ++ m' ++ ":" ++ s' ++ F')
  = lex (String.compare Y Y')
   (lex (String.compare M M')
   (lex (String.compare D D')
   (lex (String.compare h h')
   (lex (String.compare m m')
   (lex (String.compare s s') (String.compare F F')))))).
Proof.
  intros HY HM HD Hh Hm Hs.
  rewrite (compare_app Y Y') by assumption. rewrite (compare_app_same "-").
  rewrite (compare_app M M') by assumption. rewrite (compare_app_same "-").
  rewrite (compare_app D D') by assumption. rewrite (compare_app_same "T").
  rewrite (compare_app h h') by assumption. rewrite (compare_app_same ":").
  rewrite (compare_app m m') by assumption. rewrite (compare_app_same ":").
  rewrite (compare_app s s') by assumption.
  reflexivity.
Qed.

Lemma wf_datetime_bounds (d : datetime) :
  wf_datetime d = true ->
  (year d < 10 ^ 4 /\ month d < 10 ^ 2 /\ day d < 10 ^ 2 /\ hour d < 10 ^ 2 /\
   minute d < 10 ^ 2 /\ second d < 10 ^ 2 /\ microsecond d < 10 ^ 6)%N.
Proof.
  unfold wf_datetime. rewrite !andb_true_iff, !N.leb_le, !N.ltb_lt.
  change (10 ^ 4)%N with 10000%N. change (10 ^ 2)%N with 100%N.
  change (10 ^ 6)%N with 1000000%N. lia.
Qed.

(** [isoformat] preserves the order of instants: comparing the rendered
    strings gives what comparing the [datetime] values gives. *)
Lemma isoformat_compare (a b : datetime) :
  wf_datetime a = true -> wf_datetime b = true ->
  String.compare (isoformat a) (isoformat b) = dt_compare a b.
Proof.
  intros Ha Hb.
  apply wf_datetime_bounds in Ha, Hb.
  destruct Ha as (Ha1 & Ha2 & Ha3 & Ha4 & Ha5 & Ha6 & Ha7).
  destruct Hb as (Hb1 & Hb2 & Hb3 & Hb4 & Hb5 & Hb6 & Hb7).
  unfold isoformat, dt_compare.
  rewrite iso_shape_compare by (now rewrite !zpad_length).
  rewrite iso_fraction_compare by assumption.
  rewrite !zpad_compare by assumption.
  reflexivity.
Qed.

Lemma dt_compare_antisym (a b : datetime) :
  dt_compare b a = CompOpp (dt_compare a b).
Proof.
  unfold dt_compare.
  rewrite (N.compare_antisym (year a)), (N.compare_antisym (month a)),
    (N.compare_antisym (day a)), (N.compare_antisym (hour a)),
    (N.compare_antisym (minute a)), (N.compare_antisym (second a)),
    (N.compare_antisym (microsecond a)).
  destruct (year a ?= year b)%N; simpl; try reflexivity.
  destruct (month a ?= month b)%N; simpl; try reflexivity.
  destruct (day a ?= day b)%N; simpl; try reflexivity.
  destruct (hour a ?= hour b)%N; simpl; try reflexivity.
  destruct (minute a ?= minute b)%N; simpl; try reflexivity.
  destruct (second a ?= second b)%N; simpl; reflexivity.
Qed.

Lemma str_leb_iso (a b : datetime) :
  wf_datetime a = true -> wf_datetime b = true ->
  str_leb (isoformat a) (isoformat b) = true <-> dt_le a b.
Proof.
  intros Ha Hb. unfold str_leb, String.leb, dt_le.
  rewrite isoformat_compare by assumption.
  destruct (dt_compare a b); split; congruence.
Qed.

Lemma str_ltb_iso (a b : datetime) :
  wf_datetime a = true -> wf_datetime b = true ->
  str_ltb (isoformat a) (isoformat b) = true <-> dt_lt a b.
Proof.
  intros Ha Hb. unfold str_ltb, String.ltb, dt_lt.
  rewrite isoformat_compare by assumption.
  destruct (dt_compare a b); split; congruence.
Qed.

(** ** Buckets *)

Lemma in_bucket (p : SerializedEvent.t -> bool) (c : list (Doc Event.t))
  (d : Doc Event.t) :
  In d c ->
  (In (serialize_doc d) (filter p (map serialize_doc c)) <-> p (serialize_doc d) = true).
Proof.
  intros Hin. rewrite filter_In. split.
  - tauto.
  - intros Hp. split; [now apply in_map | assumption].
Qed.

(** C1.  For every event of the limited, sorted candidate set, against the
    one instant [now]: the event is in the "open" bucket exactly when
    [registration_start <= now <= registration_end], in "upcoming" exactly
    when [registration_start > now], and in "closed" exactly when
    [registration_end < now]; the three tests are made one by one on the
    ISO-8601 strings and agree with the order of the instants. *)
Theorem list_events_buckets
  (db : Store) (now : datetime) (category sort registration_window : option string)
  (limit : Z) (d : Doc Event.t) :
  wf_datetime now = true ->
  wf_datetime (Event.registration_start (fields d)) = true ->
  wf_datetime (Event.registration_end (fields d)) = true ->
  In d (candidates db now category sort registration_window limit) ->
  let r := list_events db now category sort registration_window limit in
  (In (serialize_doc d) (open r) <->
     dt_le (Event.registration_start (fields d)) now /\
     dt_le now (Event.registration_end (fields d))) /\
  (In (serialize_doc d) (upcoming r) <->
     dt_lt now (Event.registration_start (fields d))) /\
  (In (serialize_doc d) (closed r) <->
     dt_lt (Event.registration_end (fields d)) now).
Proof.
  intros Hnow Hrs Hre Hin r. subst r. unfold list_events. cbn [open upcoming closed].
  rewrite !in_bucket by assumption.
  unfold is_open, is_upcoming, is_closed, str_gtb. cbn [serialize_doc
    SerializedEvent.registration_start SerializedEvent.registration_end].
  rewrite andb_true_iff.
  rewrite !str_leb_iso, !str_ltb_iso by assumption.
  tauto.
Qed.

Lemma list_events_buckets_witness :
  In ev_inverted (candidates sample_db feb None (Some "time") None 100) /\
  (In (serialize_doc ev_inverted)
      (upcoming (list_events sample_db feb None (Some "time") None 100)) <->
   dt_lt feb (Event.registration_start (fields ev_inverted))).
Proof.
  assert (Hin : In ev_inverted (candidates sample_db feb None (Some "time") None 100))
    by (vm_compute; tauto).
  split; [exact Hin|].
  exact (proj1 (proj2
    (list_events_buckets sample_db feb None (Some "time") None 100 ev_inverted
       eq_refl eq_refl eq_refl Hin))).
Defined.

Lemma some_bucket (now : string) (d : SerializedEvent.t) :
  is_open now d || is_upcoming now d || is_closed now d = true.
Proof.
  unfold is_open, is_upcoming, is_closed, str_gtb, str_leb, str_ltb,
    String.leb, String.ltb.
  rewrite (String.compare_antisym now (SerializedEvent.registration_start d)).
  rewrite (String.compare_antisym (SerializedEvent.registration_end d) now).
  destruct (String.compare (SerializedEvent.registration_start d) now);
    destruct (String.compare now (SerializedEvent.registration_end d));
    reflexivity.
Qed.

(** C2.  Every event of the limited candidate set is in at least one of
    the three buckets; the buckets are no partition: an event whose
    registration ends before it starts, with [now] strictly between the
    two, is in both "upcoming" and "closed", and the store holds such
    events. *)
Theorem list_events_some_bucket :
  (forall db now category sort registration_window limit d,
     In d (candidates db now category sort registration_window limit) ->
     let r := list_events db now category sort registration_window limit in
     In (serialize_doc d) (open r) \/ In (serialize_doc d) (upcoming r) \/
     In (serialize_doc d) (closed r)) /\
  (forall db now category sort registration_window limit d,
     In d (candidates db now category sort registration_window limit) ->
     wf_datetime now = true ->
     wf_datetime (Event.registration_start (fields d)) = true ->
     wf_datetime (Event.registration_end (fields d)) = true ->
     dt_lt (Event.registration_end (fields d)) now ->
     dt_lt now (Event.registration_start (fields d)) ->
     let r := list_events db now category sort registration_window limit in
     In (serialize_doc d) (upcoming r) /\ In (serialize_doc d) (closed r)) /\
  (let r := list_events sample_db feb None (Some "time") None 100 in
   In ev_inverted (candidates sample_db feb None (Some "time") None 100) /\
   In (serialize_doc ev_inverted) (upcoming r) /\
   In (serialize_doc ev_inverted) (closed r)).
Proof.
  split; [|split].
  - intros db now category sort registration_window limit d Hin r. subst r.
    unfold list_events. cbn [open upcoming closed].
    rewrite !in_bucket by assumption.
    pose proof (some_bucket (isoformat now) (serialize_doc d)) as H.
    rewrite !orb_true_iff in H. tauto.
  - intros db now category sort registration_window limit d Hin Hnow Hrs Hre Hend Hstart r.
    subst r. unfold list_events. cbn [upcoming closed].
    rewrite !in_bucket by assumption.
    unfold is_upcoming, is_closed, str_gtb. cbn [serialize_doc
      SerializedEvent.registration_start SerializedEvent.registration_end].
    rewrite !str_ltb_iso by assumption. tauto.
  - vm_compute. repeat split; auto.
Qed.

Lemma list_events_some_bucket_witness :
  In ev_inverted (candidates sample_db feb None (Some "recent") None 1) /\
  (In (serialize_doc ev_inverted)
      (open (list_events sample_db feb None (Some "recent") None 1)) \/
   In (serialize_doc ev_inverted)
      (upcoming (list_events sample_db feb None (Some "recent") None 1)) \/
   In (serialize_doc ev_inverted)
      (closed (list_events sample_db feb None (Some "recent") None 1))).
Proof.
  assert (Hin : In ev_inverted (candidates sample_db feb None (Some "recent") None 1)).
  { vm_compute. tauto. }
  split; [exact Hin|].
  exact (proj1 list_events_some_bucket sample_db feb None (Some "recent") None 1
           ev_inverted Hin).
Defined.

(** ** Count and limit *)

Lemma insert_by_length {A : Type} (leb : A -> A -> bool) (x : A) (l : list A) :
  List.length (insert_by leb x l) = S (List.length l).
Proof.
  induction l as [|y l IH]; simpl; [reflexivity|].
  destruct (leb x y); simpl; [reflexivity | now rewrite IH].
Qed.

Lemma sort_by_length {A : Type} (leb : A -> A -> bool) (l : list A) :
  List.length (sort_by leb l) = List.length l.
Proof.
  induction l as [|x l IH]; simpl; [reflexivity|].
  now rewrite insert_by_length, IH.
Qed.

Lemma apply_sort_length (sort : option string) (c : list (Doc Event.t)) :
  List.length (apply_sort sort c) = List.length c.
Proof.
  unfold apply_sort.
  destruct (is_str sort "time"); [apply sort_by_length|].
  destruct (is_str sort "recent"); [apply sort_by_length | reflexivity].
Qed.

Lemma candidates_length (db : Store) (now : datetime)
  (category sort registration_window : option string) (limit : Z) :
  List.length (candidates db now category sort registration_window limit)
  = Nat.min (Z.to_nat (clamp_limit limit))
      (List.length (filter (matches (build_query now category registration_window))
                 (event db))).
Proof.
  unfold candidates. now rewrite length_firstn, apply_sort_length.
Qed.

Lemma bucket_sizes (p1 p2 p3 : SerializedEvent.t -> bool) (l : list SerializedEvent.t) :
  (forall d, p1 d || p2 d || p3 d = true) ->
  (List.length l <= List.length (filter p1 l) + List.length (filter p2 l)
                    + List.length (filter p3 l))%nat.
Proof.
  intros H. induction l as [|d l IH]; simpl; [lia|].
  specialize (H d).
  destruct (p1 d), (p2 d), (p3 d); simpl in *; try discriminate; lia.
Qed.

(** C3.  [count] is the number of events of the filtered, sorted,
    limit-capped candidate set, whatever the sizes of the buckets: these
    add up to at least [count], and to more when an event is in two
    buckets. *)
Theorem list_events_count :
  (forall db now category sort registration_window limit,
     let r := list_events db now category sort registration_window limit in
     count r = List.length (candidates db now category sort registration_window limit) /\
     (count r <= List.length (open r) + List.length (upcoming r)
                 + List.length (closed r))%nat) /\
  (let r := list_events sample_db feb None (Some "time") None 100 in
   count r = 2%nat /\
   (List.length (open r) + List.length (upcoming r) + List.length (closed r) = 3)%nat).
Proof.
  split.
  - intros db now category sort registration_window limit r. subst r.
    unfold list_events. cbn [count open upcoming closed]. split.
    + apply length_map.
    + apply bucket_sizes. intros d. apply some_bucket.
  - vm_compute. split; reflexivity.
Qed.

Lemma clamp_limit_range (limit : Z) : 1 <= clamp_limit limit <= 500.
Proof. unfold clamp_limit. lia. Qed.

Lemma clamp_limit_nonpositive (limit : Z) : limit <= 0 -> clamp_limit limit = 1.
Proof. unfold clamp_limit. lia. Qed.

(** C4, as the code has it.  The requested limit is clamped into [1, 500]
    before it is applied to the sorted candidate set, and is 100 when the
    request leaves it out; [count] is the smaller of the clamped limit and
    the number of events that pass the filters.  So no request yields more
    than 500 candidates ([limit = 10000] is clamped to 500), and a limit of
    zero or below yields at most one: exactly one when some event passes
    the filters, none otherwise. *)
Theorem list_events_limit
  (db : Store) (now : datetime) (category sort registration_window : option string)
  (limit : Z) :
  let r := list_events db now category sort registration_window limit in
  let matching :=
    filter (matches (build_query now category registration_window)) (event db) in
  1 <= clamp_limit limit <= 500 /\
  clamp_limit 10000 = 500 /\
  count r = Nat.min (Z.to_nat (clamp_limit limit)) (List.length matching) /\
  (count r <= 500)%nat /\
  (limit <= 0 -> count r = Nat.min 1 (List.length matching)) /\
  (limit <= 0 -> matching <> [] -> count r = 1%nat) /\
  get_events db now category sort registration_window None
  = get_events db now category sort registration_window (Some 100).
Proof.
  intros r matching.
  assert (Hcount : count r
                   = Nat.min (Z.to_nat (clamp_limit limit)) (List.length matching)).
  { subst r matching. unfold list_events. cbn [count].
    now rewrite length_map, candidates_length. }
  pose proof (clamp_limit_range limit) as Hrange.
  repeat split; try reflexivity; try lia; try assumption.
  - intros Hle. rewrite Hcount, clamp_limit_nonpositive by assumption. reflexivity.
  - intros Hle Hne. rewrite Hcount, clamp_limit_nonpositive by assumption.
    destruct matching; [congruence | simpl; lia].
Qed.

Lemma list_events_limit_witness :
  (-3 <= 0) /\
  count (list_events sample_db feb (Some "tech") (Some "time") None (-3)) = 1%nat.
Proof.
  split; [lia|].
  apply (list_events_limit sample_db feb (Some "tech") (Some "time") None (-3)).
  - lia.
  - vm_compute. discriminate.
Defined.

(** With no event to list, a limit of zero yields no candidate, not one. *)
Lemma limit_zero_on_empty_store :
  count (list_events empty_db feb None (Some "time") None 0) = 0%nat /\
  count (list_events empty_db feb None (Some "time") None 0) <> 1%nat.
Proof. split; [reflexivity | discriminate]. Qed.

(** ** The category filter *)

(** C10.  An empty [category] is no category filter: the listing is the
    one the same request without [category] gets.  A non-empty category is
    put into the filter document as it is. *)
Theorem list_events_empty_category
  (db : Store) (now : datetime) (sort registration_window : option string)
  (limit : Z) :
  list_events db now (Some "") sort registration_window limit
  = list_events db now None sort registration_window limit /\
  q_category (build_query now (Some "") registration_window) = None /\
  (forall c, c <> "" ->
     q_category (build_query now (Some c) registration_window) = Some c).
Proof.
  split; [reflexivity | split].
  - unfold build_query. cbn [truthy String.eqb negb].
    destruct (is_str registration_window "open"); [reflexivity|].
    destruct (is_str registration_window "upcoming"); [reflexivity|].
    destruct (is_str registration_window "closed"); reflexivity.
  - intros c Hc. unfold build_query, truthy.
    apply String.eqb_neq in Hc. rewrite Hc. cbn [negb].
    destruct (is_str registration_window "open"); [reflexivity|].
    destruct (is_str registration_window "upcoming"); [reflexivity|].
    destruct (is_str registration_window "closed"); reflexivity.
Qed.

Lemma list_events_empty_category_witness :
  "tech" <> "" /\
  q_category (build_query feb (Some "tech") (Some "open")) = Some "tech".
Proof.
  assert (H : "tech" <> "") by discriminate.
  split; [exact H|].
  exact (proj2 (proj2 (list_events_empty_category sample_db feb None (Some "open") 10))
           "tech" H).
Defined.

(** ** Updates of one document *)

Lemma update_one_matched {A : Type} (k : oid) (upd : A -> A) (c : Collection A) :
  snd (update_one k upd c)
  = match find_one k c with Some _ => 1%nat | None => 0%nat end.
Proof.
  unfold find_one. induction c as [|d c IH]; simpl; [reflexivity|].
  destruct (has_id k d); simpl; [reflexivity|].
  destruct (update_one k upd c) as [c' n]. simpl in *. exact IH.
Qed.

Lemma update_one_frame {A : Type} (R : Doc A -> Doc A -> Prop) (k : oid)
  (upd : A -> A) (c : Collection A) :
  (forall d, R d d) ->
  (forall d, R d (mkDoc (_id d) (created_at d) (upd (fields d)))) ->
  Forall2 R c (fst (update_one k upd c)).
Proof.
  intros Hrefl Hupd. induction c as [|d c IH]; simpl; [constructor|].
  destruct (has_id k d); simpl.
  - constructor; [apply Hupd|]. clear IH. induction c; constructor; auto.
  - destruct (update_one k upd c) as [c' n]. simpl in *. constructor; auto.
Qed.

Lemma update_one_found {A : Type} (k : oid) (upd : A -> A) (c : Collection A)
  (d : Doc A) :
  find_one k c = Some d ->
  find_one k (fst (update_one k upd c))
  = Some (mkDoc (_id d) (created_at d) (upd (fields d))).
Proof.
  unfold find_one. induction c as [|x c IH]; simpl; [discriminate|].
  destruct (has_id k x) eqn:Hx; simpl.
  - intros [= <-]. unfold has_id in *. simpl. now rewrite Hx.
  - intros Hd. destruct (update_one k upd c) as [c' n]. simpl in *.
    rewrite Hx. auto.
Qed.

Section Mutators.

Variable ObjectId : string -> option oid.

Lemma approve_event_store (db : Store) (payload : ApproveEventRequest.t) :
  snd (approve_event ObjectId db payload)
  = match ObjectId (ApproveEventRequest.event_id payload) with
    | None => db
    | Some eid =>
        mkStore (organization db) (admin db)
          (fst (update_one eid
                  (Event.set_approval (ApproveEventRequest.approve payload) "admin")
                  (event db)))
    end.
Proof.
  unfold approve_event.
  destruct (ObjectId (ApproveEventRequest.event_id payload)) as [eid|];
    [|reflexivity].
  destruct (update_one eid _ (event db)) as [events n]. simpl.
  now destruct (Nat.eqb n 0).
Qed.

Lemma verify_organization_store (db : Store) (payload : VerifyOrgRequest.t) :
  snd (verify_organization ObjectId db payload)
  = match ObjectId (VerifyOrgRequest.org_id payload) with
    | None => db
    | Some k =>
        mkStore
          (fst (update_one k (set_verified (VerifyOrgRequest.verified payload))
                  (organization db)))
          (admin db) (event db)
    end.
Proof.
  unfold verify_organization.
  destruct (ObjectId (VerifyOrgRequest.org_id payload)) as [k|]; [|reflexivity].
  destruct (update_one k _ (organization db)) as [orgs n]. simpl.
  now destruct (Nat.eqb n 0).
Qed.

(** What an approval leaves in the event it finds: the flag asked for
    and the constant ["admin"]. *)
Lemma approve_event_sets (db : Store) (payload : ApproveEventRequest.t)
  (eid : oid) (d : Doc Event.t) :
  ObjectId (ApproveEventRequest.event_id payload) = Some eid ->
  find_one eid (event db) = Some d ->
  find_one eid (event (snd (approve_event ObjectId db payload)))
  = Some (mkDoc (_id d) (created_at d)
            (Event.set_approval (ApproveEventRequest.approve payload) "admin"
               (fields d))).
Proof.
  intros Hid Hd. rewrite approve_event_store, Hid. simpl.
  now apply update_one_found.
Qed.

Lemma Forall2_same {A : Type} (R : A -> A -> Prop) (l : list A) :
  (forall x, R x x) -> Forall2 R l l.
Proof. intros H. induction l; constructor; auto. Qed.

(** C6.  Approving or un-approving an event leaves [is_org_verified],
    and every field but [approved] and [approved_by], of every event as
    it was, and leaves the organizations alone; verifying or un-verifying
    an organization leaves the whole event collection as it was, so no
    event's [approved] or [is_org_verified] changes, and changes nothing
    of an organization but [verified]. *)
Theorem mutators_frame (db : Store) (ap : ApproveEventRequest.t)
  (vp : VerifyOrgRequest.t) :
  (let db' := snd (approve_event ObjectId db ap) in
   organization db' = organization db /\
   admin db' = admin db /\
   Forall2 same_but_approval (event db) (event db') /\
   Forall2 (fun d d' => Event.is_org_verified (fields d')
                        = Event.is_org_verified (fields d))
     (event db) (event db')) /\
  (let db' := snd (verify_organization ObjectId db vp) in
   event db' = event db /\
   admin db' = admin db /\
   Forall2 same_but_verified (organization db) (organization db')).
Proof.
  split.
  - cbv zeta. rewrite approve_event_store.
    destruct (ObjectId (ApproveEventRequest.event_id ap)) as [eid|]; simpl.
    + repeat split.
      * apply update_one_frame; intros d; repeat split.
      * apply update_one_frame; intros d; reflexivity.
    + repeat split; apply Forall2_same; intros d; repeat split.
  - cbv zeta. rewrite verify_organization_store.
    destruct (ObjectId (VerifyOrgRequest.org_id vp)) as [k|]; simpl.
    + repeat split. apply update_one_frame; intros d; repeat split.
    + repeat split. apply Forall2_same; intros d; repeat split.
Qed.

(** C7.  When the token resolves to an organization of the store, the
    event is stored with [approved] equal to the organization's
    [verified] flag of that moment, [is_org_verified] equal to the same
    value and [approved_by] null, after the events there were; the
    response carries the new key and that [approved] value. *)
Theorem create_event_snapshot (new_id : oid) (stamp : datetime) (db : Store)
  (payload : EventCreateRequest.t) (k : oid) (org : Doc Organization.t) :
  ObjectId (EventCreateRequest.organization_token payload) = Some k ->
  find_one k (organization db) = Some org ->
  exists ev : Event.t,
    create_event ObjectId new_id stamp db payload
    = (Return (mkCreated new_id (Organization.verified (fields org))),
       mkStore (organization db) (admin db)
         (event db ++ [mkDoc new_id stamp ev])%list) /\
    Event.approved ev = Organization.verified (fields org) /\
    Event.is_org_verified ev = Some (Organization.verified (fields org)) /\
    Event.approved_by ev = None /\
    Event.organization_id ev = _id org.
Proof.
  intros Htok Horg. unfold create_event. rewrite Htok, Horg.
  eexists. split; [reflexivity|]. repeat split.
Qed.

(** C8.  [verify_organization] and [approve_event] fail with status 400
    when the identifier is no well-formed key, with status 404 when it is
    one and no document has it, and give [{success: true}] otherwise; the
    two statuses differ. *)
Theorem mutators_responses (db : Store) (vp : VerifyOrgRequest.t)
  (ap : ApproveEventRequest.t) :
  fst (verify_organization ObjectId db vp)
  = match ObjectId (VerifyOrgRequest.org_id vp) with
    | None => HTTPException 400 "Invalid organization id"
    | Some k =>
        match find_one k (organization db) with
        | None => HTTPException 404 "Organization not found"
        | Some _ => Return (mkSuccess true)
        end
    end /\
  fst (approve_event ObjectId db ap)
  = match ObjectId (ApproveEventRequest.event_id ap) with
    | None => HTTPException 400 "Invalid event id"
    | Some k =>
        match find_one k (event db) with
        | None => HTTPException 404 "Event not found"
        | Some _ => Return (mkSuccess true)
        end
    end /\
  (400 =? 404) = false.
Proof.
  split; [|split; [|reflexivity]].
  - unfold verify_organization.
    destruct (ObjectId (VerifyOrgRequest.org_id vp)) as [k|]; [|reflexivity].
    pose proof (update_one_matched k
                  (set_verified (VerifyOrgRequest.verified vp))
                  (organization db)) as Hm.
    destruct (update_one k _ (organization db)) as [orgs n]. simpl in Hm.
    subst n. now destruct (find_one k (organization db)).
  - unfold approve_event.
    destruct (ObjectId (ApproveEventRequest.event_id ap)) as [k|]; [|reflexivity].
    pose proof (update_one_matched k
                  (Event.set_approval (ApproveEventRequest.approve ap) "admin")
                  (event db)) as Hm.
    destruct (update_one k _ (event db)) as [events n]. simpl in Hm.
    subst n. now destruct (find_one k (event db)).
Qed.

End Mutators.

Lemma create_event_snapshot_witness :
  exists ev : Event.t,
    create_event hex_ObjectId "e00000000000000000000009" feb sample_db sample_create
    = (Return (mkCreated "e00000000000000000000009" true),
       mkStore (organization sample_db) (admin sample_db)
         (event sample_db ++ [mkDoc "e00000000000000000000009" feb ev])%list) /\
    Event.approved ev = true /\
    Event.is_org_verified ev = Some true /\
    Event.approved_by ev = None /\
    Event.organization_id ev = "bbbbbbbbbbbbbbbbbbbbbbbb".
Proof.
  exact (create_event_snapshot hex_ObjectId "e00000000000000000000009" feb sample_db
           sample_create "bbbbbbbbbbbbbbbbbbbbbbbb" org_b eq_refl eq_refl).
Defined.

(** C5.  On the sample store, whose one admin has the key
    [cccccccccccccccccccccccc] and the email [root@example.org], approving
    the pending event leaves [approved_by] with the constant ["admin"]:
    neither that admin's key nor the email, and no store key at all.
    Withdrawing the approval leaves the same constant. *)
Theorem approve_event_approved_by :
  let approved_by_after (approve : bool) :=
    option_map (fun d => (Event.approved (fields d), Event.approved_by (fields d)))
      (find_one "e00000000000000000000003"
         (event (snd (approve_event hex_ObjectId sample_db
                        (ApproveEventRequest.mk "e00000000000000000000003" approve))))) in
  approved_by_after true = Some (true, Some "admin") /\
  approved_by_after false = Some (false, Some "admin") /\
  String.eqb "admin" (_id root_admin) = false /\
  String.eqb "admin" (Admin.email (fields root_admin)) = false /\
  hex_ObjectId "admin" = None.
Proof.
  cbv zeta. repeat split; reflexivity.
Qed.

(** ** Sorting *)

Lemma compare_triple_N (a b c : N) :
  compare_triple (a ?= b)%N (b ?= c)%N (a ?= c)%N.
Proof.
  unfold compare_triple.
  destruct (N.compare_spec a b), (N.compare_spec b c), (N.compare_spec a c);
    repeat split; intros; try congruence; exfalso; lia.
Qed.

Lemma compare_triple_lex (x1 y1 z1 x2 y2 z2 : comparison) :
  compare_triple x1 y1 z1 -> compare_triple x2 y2 z2 ->
  compare_triple (lex x1 x2) (lex y1 y2) (lex z1 z2).
Proof.
  unfold compare_triple. intros (A1 & A2 & A3 & A4) (B1 & B2 & B3 & B4).
  destruct x1, y1, z1; simpl;
    repeat split; intros; try congruence; auto;
    try (specialize (A1 eq_refl)); try (specialize (A2 eq_refl));
    try (specialize (A3 eq_refl eq_refl)); try (specialize (A4 eq_refl eq_refl));
    congruence.
Qed.

Lemma dt_compare_triple (a b c : datetime) :
  compare_triple (dt_compare a b) (dt_compare b c) (dt_compare a c).
Proof.
  unfold dt_compare. repeat apply compare_triple_lex; apply compare_triple_N.
Qed.

Lemma dt_compare_eq (a b : datetime) : dt_compare a b = Eq -> a = b.
Proof.
  destruct a as [y1 mo1 d1 h1 mi1 s1 u1], b as [y2 mo2 d2 h2 mi2 s2 u2].
  unfold dt_compare. cbn [year month day hour minute second microsecond].
  destruct (N.compare_spec y1 y2); simpl; try discriminate.
  destruct (N.compare_spec mo1 mo2); simpl; try discriminate.
  destruct (N.compare_spec d1 d2); simpl; try discriminate.
  destruct (N.compare_spec h1 h2); simpl; try discriminate.
  destruct (N.compare_spec mi1 mi2); simpl; try discriminate.
  destruct (N.compare_spec s1 s2); simpl; try discriminate.
  destruct (N.compare_spec u1 u2); simpl; try discriminate.
  intros _. congruence.
Qed.

Section OrderOfCompare.

Context {A : Type} (cmp : A -> A -> comparison).
Hypothesis cmp_antisym : forall a b, cmp b a = CompOpp (cmp a b).
Hypothesis cmp_triple : forall a b c, compare_triple (cmp a b) (cmp b c) (cmp a c).

Lemma leb_of_total (a b : A) : leb_of cmp a b = true \/ leb_of cmp b a = true.
Proof.
  unfold leb_of. rewrite (cmp_antisym a b).
  destruct (cmp a b); simpl; auto.
Qed.

Lemma leb_of_trans (a b c : A) :
  leb_of cmp a b = true -> leb_of cmp b c = true -> leb_of cmp a c = true.
Proof.
  unfold leb_of. destruct (cmp_triple a b c) as (T1 & T2 & T3 & _).
  destruct (cmp a b) eqn:Eab; try discriminate; intros _;
    destruct (cmp b c) eqn:Ebc; try discriminate; intros _.
  - now rewrite (T1 eq_refl).
  - now rewrite (T1 eq_refl).
  - now rewrite (T2 eq_refl).
  - now rewrite (T3 eq_refl eq_refl).
Qed.

End OrderOfCompare.

Section InsertionSort.

Context {A : Type} (leb : A -> A -> bool).
Hypothesis leb_total : forall a b, leb a b = true \/ leb b a = true.
Hypothesis leb_trans :
  forall a b c, leb a b = true -> leb b c = true -> leb a c = true.

Lemma insert_by_perm (x : A) (l : list A) :
  Permutation (insert_by leb x l) (x :: l).
Proof.
  induction l as [|y l IH]; simpl; [reflexivity|].
  destruct (leb x y); [reflexivity|].
  rewrite IH. apply perm_swap.
Qed.

Lemma sort_by_perm (l : list A) : Permutation (sort_by leb l) l.
Proof.
  induction l as [|x l IH]; simpl; [reflexivity|].
  rewrite insert_by_perm. now constructor.
Qed.

Lemma insert_by_sorted (x : A) (l : list A) :
  StronglySorted (fun a b => leb a b = true) l ->
  StronglySorted (fun a b => leb a b = true) (insert_by leb x l).
Proof.
  induction 1 as [|y l Hs IH Hy]; simpl.
  - constructor; constructor.
  - destruct (leb x y) eqn:Hxy.
    + constructor; [now constructor|].
      constructor; [assumption|].
      eapply Forall_impl; [|exact Hy]. intros z Hz. eauto.
    + constructor; [assumption|].
      apply (Permutation_Forall (Permutation_sym (insert_by_perm x l))).
      constructor; [|assumption].
      destruct (leb_total x y); congruence.
Qed.

Lemma sort_by_sorted (l : list A) :
  StronglySorted (fun a b => leb a b = true) (sort_by leb l).
Proof.
  induction l as [|x l IH]; simpl; [constructor | now apply insert_by_sorted].
Qed.

End InsertionSort.

Lemma In_firstn {A : Type} (x : A) (n : nat) (l : list A) :
  In x (firstn n l) -> In x l.
Proof.
  revert l; induction n as [|n IH]; intros [|y l]; simpl; try tauto.
  intros [H|H]; auto.
Qed.

Lemma StronglySorted_firstn {A : Type} (R : A -> A -> Prop) (n : nat) (l : list A) :
  StronglySorted R l -> StronglySorted R (firstn n l).
Proof.
  intros H. revert n. induction H as [|x l Hs IH Hx]; intros [|n]; simpl;
    try constructor; auto.
  rewrite Forall_forall in *. intros y Hy. apply Hx.
  eapply In_firstn; eassumption.
Qed.

Lemma StronglySorted_impl {A : Type} (R S : A -> A -> Prop) (l : list A) :
  (forall a b, R a b -> S a b) -> StronglySorted R l -> StronglySorted S l.
Proof.
  intros HRS. induction 1 as [|x l Hs IH Hx]; constructor; auto.
  eapply Forall_impl; [|exact Hx]. auto.
Qed.

Lemma time_leb_of (a b : Doc Event.t) : time_leb a b = leb_of time_compare a b.
Proof.
  unfold time_leb, leb_of, time_compare, dt_leb.
  now destruct (dt_compare (Event.registration_start (fields a))
                           (Event.registration_start (fields b))).
Qed.

Lemma time_compare_antisym (a b : Doc Event.t) :
  time_compare b a = CompOpp (time_compare a b).
Proof.
  unfold time_compare.
  rewrite (dt_compare_antisym (Event.registration_start (fields a))),
    (dt_compare_antisym (Event.event_start (fields a))).
  now destruct (dt_compare (Event.registration_start (fields a))
                           (Event.registration_start (fields b))).
Qed.

Lemma time_leb_total (a b : Doc Event.t) :
  time_leb a b = true \/ time_leb b a = true.
Proof.
  rewrite !time_leb_of. apply leb_of_total. apply time_compare_antisym.
Qed.

Lemma time_leb_trans (a b c : Doc Event.t) :
  time_leb a b = true -> time_leb b c = true -> time_leb a c = true.
Proof.
  rewrite !time_leb_of. apply leb_of_trans.
  intros x y z. apply compare_triple_lex; apply dt_compare_triple.
Qed.

Lemma dt_leb_total (a b : datetime) : dt_leb a b = true \/ dt_leb b a = true.
Proof. apply (leb_of_total dt_compare). apply dt_compare_antisym. Qed.

Lemma dt_leb_trans (a b c : datetime) :
  dt_leb a b = true -> dt_leb b c = true -> dt_leb a c = true.
Proof. apply (leb_of_trans dt_compare). apply dt_compare_triple. Qed.

Lemma dt_leb_le (a b : datetime) : dt_leb a b = true -> dt_le a b.
Proof. unfold dt_leb, dt_le. destruct (dt_compare a b); congruence. Qed.

Lemma time_leb_order (a b : Doc Event.t) : time_leb a b = true -> time_order a b.
Proof.
  unfold time_leb, time_order, dt_lt.
  destruct (dt_compare (Event.registration_start (fields a))
                       (Event.registration_start (fields b))) eqn:E.
  - intros H. right. split; [now apply dt_compare_eq | now apply dt_leb_le].
  - intros _. now left.
  - discriminate.
Qed.

Lemma recent_leb_order (a b : Doc Event.t) : recent_leb a b = true -> recent_order a b.
Proof. apply dt_leb_le. Qed.

Lemma is_str_false (o : option string) (s : string) :
  o <> Some s -> is_str o s = false.
Proof.
  destruct o as [x|]; simpl; [|reflexivity].
  intros H. apply String.eqb_neq. congruence.
Qed.

(** C9.  With [sort = "time"], which is the default, the candidate set is
    in ascending order of [registration_start], ties in ascending order of
    [event_start]; with [sort = "recent"] it is in descending order of the
    creation timestamp; in both cases it is the first [limit] events of a
    rearrangement of the events that pass the filters.  With any other
    value nothing is sorted: the candidate set is the first [limit] of
    those events in the store's own order. *)
Theorem list_events_order
  (db : Store) (now : datetime) (category registration_window : option string)
  (limit : Z) :
  let filtered :=
    filter (matches (build_query now category registration_window)) (event db) in
  let n := Z.to_nat (clamp_limit limit) in
  (StronglySorted time_order
     (candidates db now category (Some "time") registration_window limit) /\
   exists l, Permutation l filtered /\
             candidates db now category (Some "time") registration_window limit
             = firstn n l) /\
  default_sort = Some "time" /\
  (StronglySorted recent_order
     (candidates db now category (Some "recent") registration_window limit) /\
   exists l, Permutation l filtered /\
             candidates db now category (Some "recent") registration_window limit
             = firstn n l) /\
  (forall sort, sort <> Some "time" -> sort <> Some "recent" ->
     candidates db now category sort registration_window limit = firstn n filtered).
Proof.
  intros filtered n. repeat split.
  - apply StronglySorted_firstn.
    apply (StronglySorted_impl (fun a b => time_leb a b = true));
      [exact time_leb_order|].
    apply sort_by_sorted; [exact time_leb_total | exact time_leb_trans].
  - exists (sort_by time_leb filtered). split; [apply sort_by_perm | reflexivity].
  - apply StronglySorted_firstn.
    apply (StronglySorted_impl (fun a b => recent_leb a b = true));
      [exact recent_leb_order|].
    apply sort_by_sorted.
    + intros a b. apply dt_leb_total.
    + intros a b c Hab Hbc. unfold recent_leb in *. eapply dt_leb_trans; eassumption.
  - exists (sort_by recent_leb filtered). split; [apply sort_by_perm | reflexivity].
  - intros sort Ht Hr. unfold candidates, apply_sort.
    now rewrite (is_str_false sort "time"), (is_str_false sort "recent").
Qed.

Lemma list_events_order_witness :
  Some "natural" <> Some "time" /\ Some "natural" <> Some "recent" /\
  candidates sample_db feb None (Some "natural") None 1 = [ev_regular].
Proof.
  assert (Ht : Some "natural" <> Some "time") by discriminate.
  assert (Hr : Some "natural" <> Some "recent") by discriminate.
  split; [exact Ht | split; [exact Hr|]].
  exact (proj2 (proj2 (proj2 (list_events_order sample_db feb None None 1)))
           (Some "natural") Ht Hr).
Defined.

(** ** More on the listing *)

Lemma dt_compare_refl (a : datetime) : dt_compare a a = Eq.
Proof.
  pose proof (dt_compare_antisym a a) as H.
  destruct (dt_compare a a); simpl in H; congruence.
Qed.

Lemma isoformat_inj (a b : datetime) :
  wf_datetime a = true -> wf_datetime b = true ->
  isoformat a = isoformat b -> a = b.
Proof.
  intros Ha Hb H. apply dt_compare_eq.
  rewrite <- isoformat_compare by assumption.
  rewrite H. apply compare_refl.
Qed.

(** Two instants that render alike are the same instant: the serialized
    timestamps lose nothing. *)
Theorem isoformat_injective (a b : datetime) :
  wf_datetime a = true -> wf_datetime b = true ->
  isoformat a = isoformat b -> a = b.
Proof. exact (isoformat_inj a b). Qed.

Lemma isoformat_injective_witness :
  isoformat mar = "2024-03-10T09:30:00.250000+00:00" /\
  mar = mkDatetime 2024 3 10 9 30 0 250000.
Proof.
  split; [reflexivity|].
  exact (isoformat_injective mar (mkDatetime 2024 3 10 9 30 0 250000)
           eq_refl eq_refl eq_refl).
Defined.

Lemma apply_sort_perm (sort : option string) (c : list (Doc Event.t)) :
  Permutation (apply_sort sort c) c.
Proof.
  unfold apply_sort.
  destruct (is_str sort "time"); [apply sort_by_perm|].
  destruct (is_str sort "recent"); [apply sort_by_perm | reflexivity].
Qed.

Lemma candidates_matching (db : Store) (now : datetime)
  (category sort registration_window : option string) (limit : Z) (d : Doc Event.t) :
  In d (candidates db now category sort registration_window limit) ->
  In d (event db) /\
  matches (build_query now category registration_window) d = true.
Proof.
  unfold candidates. intros H. apply In_firstn in H.
  apply (Permutation_in _ (apply_sort_perm sort _)) in H.
  now apply filter_In in H.
Qed.

Lemma build_query_shape (now : datetime) (category registration_window : option string) :
  q_approved (build_query now category registration_window) = true /\
  q_category (build_query now category registration_window)
  = (if truthy category then category else None).
Proof.
  unfold build_query.
  destruct (is_str registration_window "open"); [split; reflexivity|].
  destruct (is_str registration_window "upcoming"); [split; reflexivity|].
  destruct (is_str registration_window "closed"); split; reflexivity.
Qed.

Lemma build_query_window (now : datetime) (category : option string) :
  q_registration_start (build_query now category (Some "upcoming")) = Some (op_gt, now) /\
  q_registration_end (build_query now category (Some "closed")) = Some (op_lt, now).
Proof. split; reflexivity. Qed.

Lemma matches_parts (q : Query) (d : Doc Event.t) :
  matches q d = true ->
  Event.approved (fields d) = q_approved q /\
  opt_holds (q_category q) (String.eqb (Event.category (fields d))) = true /\
  opt_holds (q_registration_start q)
    (fun c => range_holds c (Event.registration_start (fields d))) = true /\
  opt_holds (q_registration_end q)
    (fun c => range_holds c (Event.registration_end (fields d))) = true.
Proof.
  unfold matches. rewrite !andb_true_iff. intros [[[H1 H2] H3] H4].
  apply Bool.eqb_prop in H1. auto.
Qed.

Lemma in_buckets_candidate (db : Store) (now : datetime)
  (category sort registration_window : option string) (limit : Z)
  (s : SerializedEvent.t) :
  let r := list_events db now category sort registration_window limit in
  In s (open r) \/ In s (upcoming r) \/ In s (closed r) ->
  exists d, In d (candidates db now category sort registration_window limit) /\
            s = serialize_doc d.
Proof.
  intros r H. subst r. unfold list_events in H. cbn [open upcoming closed] in H.
  rewrite !filter_In, !in_map_iff in H.
  destruct H as [[(d & E & Hd) _]|[[(d & E & Hd) _]|[(d & E & Hd) _]]];
    exists d; auto.
Qed.

Lemma listed_event_origin
  (db : Store) (now : datetime) (category sort registration_window : option string)
  (limit : Z) (s : SerializedEvent.t) :
  let r := list_events db now category sort registration_window limit in
  In s (open r) \/ In s (upcoming r) \/ In s (closed r) ->
  exists d, In d (event db) /\ s = serialize_doc d /\
            Event.approved (fields d) = true /\
            SerializedEvent.approved s = true /\
            (forall c, category = Some c -> c <> "" ->
               SerializedEvent.category s = c).
Proof.
  intros r H. apply in_buckets_candidate in H. destruct H as (d & Hd & ->).
  apply candidates_matching in Hd. destruct Hd as [Hin Hm].
  apply matches_parts in Hm. destruct Hm as (Ha & Hc & _ & _).
  destruct (build_query_shape now category registration_window) as [Qa Qc].
  rewrite Qa in Ha. exists d. repeat split; try assumption.
  intros c -> Hne. rewrite Qc in Hc. unfold truthy in Hc.
  apply String.eqb_neq in Hne. rewrite Hne in Hc. simpl in Hc.
  now apply String.eqb_eq in Hc.
Qed.

(** Whatever [GET /events] lists, in any bucket, is a stored event that is
    approved, and has the category asked for when one is given: an event
    that is not approved is never shown. *)
Theorem list_events_visible
  (db : Store) (now : datetime) (category sort registration_window : option string)
  (limit : Z) (s : SerializedEvent.t) :
  let r := list_events db now category sort registration_window limit in
  In s (open r) \/ In s (upcoming r) \/ In s (closed r) ->
  exists d, In d (event db) /\ s = serialize_doc d /\
            Event.approved (fields d) = true /\
            SerializedEvent.approved s = true /\
            (forall c, category = Some c -> c <> "" ->
               SerializedEvent.category s = c).
Proof.
  exact (listed_event_origin db now category sort registration_window limit s).
Qed.

Lemma list_events_visible_witness :
  exists d, In d (event sample_db) /\ serialize_doc ev_regular = serialize_doc d /\
            Event.approved (fields d) = true /\
            SerializedEvent.approved (serialize_doc ev_regular) = true /\
            (forall c, Some "tech" = Some c -> c <> "" ->
               SerializedEvent.category (serialize_doc ev_regular) = c).
Proof.
  apply (list_events_visible sample_db feb (Some "tech") (Some "time") None 10).
  left. vm_compute. auto.
Defined.

(** An event of the "open" bucket is in neither of the other two: the one
    overlap the three tests allow is between "upcoming" and "closed". *)
Theorem open_bucket_exclusive
  (db : Store) (now : datetime) (category sort registration_window : option string)
  (limit : Z) (s : SerializedEvent.t) :
  let r := list_events db now category sort registration_window limit in
  In s (open r) -> ~ In s (upcoming r) /\ ~ In s (closed r).
Proof.
  intros r. subst r. unfold list_events. cbn [open upcoming closed].
  rewrite !filter_In. intros [_ Ho].
  unfold is_open, str_leb, String.leb in Ho. apply andb_true_iff in Ho.
  destruct Ho as [H1 H2].
  split; intros [_ H]; unfold is_upcoming, is_closed, str_gtb, str_ltb, String.ltb in H.
  - rewrite String.compare_antisym in H.
    destruct (String.compare (SerializedEvent.registration_start s) (isoformat now));
      simpl in *; discriminate.
  - rewrite String.compare_antisym in H.
    destruct (String.compare (isoformat now) (SerializedEvent.registration_end s));
      simpl in *; discriminate.
Qed.

Lemma open_bucket_exclusive_witness :
  ~ In (serialize_doc ev_regular)
      (upcoming (list_events sample_db feb None (Some "time") None 100)) /\
  ~ In (serialize_doc ev_regular)
      (closed (list_events sample_db feb None (Some "time") None 100)).
Proof.
  apply (open_bucket_exclusive sample_db feb None (Some "time") None 100).
  vm_compute. auto.
Defined.

Lemma dt_lt_le_cycle (a b c : datetime) :
  dt_lt a b -> dt_lt b c -> dt_le c a -> False.
Proof.
  unfold dt_lt, dt_le. intros Hab Hbc Hca.
  destruct (dt_compare_triple a b c) as (_ & _ & T & _).
  specialize (T Hab Hbc). rewrite (dt_compare_antisym a c), T in Hca.
  now apply Hca.
Qed.

Lemma upcoming_closed_apart (now : datetime) (d : Doc Event.t) :
  wf_datetime now = true ->
  wf_datetime (Event.registration_start (fields d)) = true ->
  wf_datetime (Event.registration_end (fields d)) = true ->
  window_in_order d ->
  is_upcoming (isoformat now) (serialize_doc d)
  && is_closed (isoformat now) (serialize_doc d) = false.
Proof.
  intros Hnow Hrs Hre Hord.
  destruct (is_upcoming _ _) eqn:Hu; [|reflexivity].
  destruct (is_closed _ _) eqn:Hc; [|reflexivity].
  exfalso. unfold is_upcoming, is_closed, str_gtb in *.
  cbn [serialize_doc SerializedEvent.registration_start
         SerializedEvent.registration_end] in *.
  apply str_ltb_iso in Hu; try assumption.
  apply str_ltb_iso in Hc; try assumption.
  exact (dt_lt_le_cycle _ _ _ Hc Hu Hord).
Qed.

Lemma open_apart (now : string) (s : SerializedEvent.t) :
  is_open now s = true -> is_upcoming now s = false /\ is_closed now s = false.
Proof.
  unfold is_open, is_upcoming, is_closed, str_gtb, str_leb, str_ltb,
    String.leb, String.ltb.
  rewrite (String.compare_antisym now (SerializedEvent.registration_start s)).
  rewrite (String.compare_antisym (SerializedEvent.registration_end s) now).
  destruct (String.compare (SerializedEvent.registration_start s) now);
    destruct (String.compare now (SerializedEvent.registration_end s));
    simpl; intros; try discriminate; auto.
Qed.

Lemma bucket_sizes_exact (p1 p2 p3 : SerializedEvent.t -> bool)
  (l : list SerializedEvent.t) :
  (forall s, In s l -> p1 s || p2 s || p3 s = true) ->
  (forall s, In s l -> p1 s = true -> p2 s = false /\ p3 s = false) ->
  (forall s, In s l -> p2 s && p3 s = false) ->
  (List.length (filter p1 l) + List.length (filter p2 l)
   + List.length (filter p3 l) = List.length l)%nat.
Proof.
  intros Hsome Hopen Hpair. induction l as [|s l IH]; [reflexivity|].
  assert (IH' := IH (fun x Hx => Hsome x (or_intror Hx))
                    (fun x Hx => Hopen x (or_intror Hx))
                    (fun x Hx => Hpair x (or_intror Hx))).
  specialize (Hsome s (or_introl eq_refl)).
  specialize (Hopen s (or_introl eq_refl)).
  specialize (Hpair s (or_introl eq_refl)).
  simpl. destruct (p1 s), (p2 s), (p3 s); simpl in *;
    try discriminate; try (destruct (Hopen eq_refl); discriminate); lia.
Qed.

(** When no candidate has a registration window that ends before it
    starts, the three buckets do partition the candidate set: no event is
    in two of them and their sizes add up to [count]. *)
Theorem list_events_partition
  (db : Store) (now : datetime) (category sort registration_window : option string)
  (limit : Z) :
  wf_datetime now = true ->
  (forall d, In d (candidates db now category sort registration_window limit) ->
     wf_datetime (Event.registration_start (fields d)) = true /\
     wf_datetime (Event.registration_end (fields d)) = true /\
     window_in_order d) ->
  let r := list_events db now category sort registration_window limit in
  (List.length (open r) + List.length (upcoming r) + List.length (closed r)
   = count r)%nat /\
  (forall s, ~ (In s (upcoming r) /\ In s (closed r))).
Proof.
  intros Hnow Hall r. subst r. unfold list_events. cbn [open upcoming closed count].
  assert (Hpair : forall s,
             In s (map serialize_doc
                     (candidates db now category sort registration_window limit)) ->
             is_upcoming (isoformat now) s && is_closed (isoformat now) s = false).
  { intros s Hs. apply in_map_iff in Hs. destruct Hs as (d & <- & Hd).
    destruct (Hall d Hd) as (Hrs & Hre & Hord).
    now apply upcoming_closed_apart. }
  split.
  - apply bucket_sizes_exact.
    + intros s _. apply some_bucket.
    + intros s _. apply open_apart.
    + exact Hpair.
  - intros s [Hu Hc]. apply filter_In in Hu, Hc.
    destruct Hu as [Hin Hu], Hc as [_ Hc].
    specialize (Hpair s Hin). rewrite Hu, Hc in Hpair. discriminate.
Qed.

Lemma list_events_partition_witness :
  (List.length (open (list_events sample_db feb (Some "tech") (Some "time") None 100))
   + List.length (upcoming (list_events sample_db feb (Some "tech") (Some "time") None 100))
   + List.length (closed (list_events sample_db feb (Some "tech") (Some "time") None 100))
   = count (list_events sample_db feb (Some "tech") (Some "time") None 100))%nat /\
  (forall s,
     ~ (In s (upcoming (list_events sample_db feb (Some "tech") (Some "time") None 100)) /\
        In s (closed (list_events sample_db feb (Some "tech") (Some "time") None 100)))).
Proof.
  apply (list_events_partition sample_db feb (Some "tech") (Some "time") None 100).
  - reflexivity.
  - intros d Hd. vm_compute in Hd. destruct Hd as [ <- | [] ].
    repeat split; try reflexivity. vm_compute. discriminate.
Defined.

(** Asking for the "upcoming" window gives candidates that all land in the
    "upcoming" bucket, and asking for the "closed" window candidates that
    all land in the "closed" bucket: for these two the pre-filter of the
    store and the later test on the rendered strings agree. *)
Theorem list_events_window_bucket
  (db : Store) (now : datetime) (category sort : option string) (limit : Z)
  (d : Doc Event.t) :
  wf_datetime now = true ->
  wf_datetime (Event.registration_start (fields d)) = true ->
  wf_datetime (Event.registration_end (fields d)) = true ->
  (In d (candidates db now category sort (Some "upcoming") limit) ->
   In (serialize_doc d)
      (upcoming (list_events db now category sort (Some "upcoming") limit))) /\
  (In d (candidates db now category sort (Some "closed") limit) ->
   In (serialize_doc d)
      (closed (list_events db now category sort (Some "closed") limit))).
Proof.
  intros Hnow Hrs Hre. split; intros Hin.
  - unfold list_events. cbn [upcoming]. apply in_bucket; [assumption|].
    apply candidates_matching in Hin. destruct Hin as [_ Hm].
    apply matches_parts in Hm. destruct Hm as (_ & _ & Hs & _).
    rewrite (proj1 (build_query_window now category)) in Hs.
    unfold is_upcoming, str_gtb.
    cbn [serialize_doc SerializedEvent.registration_start].
    apply str_ltb_iso; try assumption.
    cbn [opt_holds range_holds fst snd] in Hs. unfold dt_ltb in Hs. unfold dt_lt.
    destruct (dt_compare now (Event.registration_start (fields d)));
      congruence.
  - unfold list_events. cbn [closed]. apply in_bucket; [assumption|].
    apply candidates_matching in Hin. destruct Hin as [_ Hm].
    apply matches_parts in Hm. destruct Hm as (_ & _ & _ & He).
    rewrite (proj2 (build_query_window now category)) in He.
    unfold is_closed.
    cbn [serialize_doc SerializedEvent.registration_end].
    apply str_ltb_iso; try assumption.
    cbn [opt_holds range_holds fst snd] in He. unfold dt_ltb in He. unfold dt_lt.
    destruct (dt_compare (Event.registration_end (fields d)) now);
      congruence.
Qed.

Lemma list_events_window_bucket_witness :
  In (serialize_doc ev_inverted)
     (closed (list_events sample_db feb None (Some "time") (Some "closed") 5)).
Proof.
  apply (list_events_window_bucket sample_db feb None (Some "time") 5 ev_inverted
           eq_refl eq_refl eq_refl).
  vm_compute. auto.
Defined.



Lemma StronglySorted_filter {A : Type} (R : A -> A -> Prop) (p : A -> bool)
  (l : list A) :
  StronglySorted R l -> StronglySorted R (filter p l).
Proof.
  induction 1 as [|x l Hs IH Hx]; simpl; [constructor|].
  destruct (p x); [|assumption].
  constructor; [assumption|].
  rewrite Forall_forall in *. intros y Hy. apply Hx.
  now apply filter_In in Hy.
Qed.

Lemma filter_map_serialize (p : SerializedEvent.t -> bool) (c : list (Doc Event.t)) :
  filter p (map serialize_doc c)
  = map serialize_doc (filter (fun d => p (serialize_doc d)) c).
Proof.
  induction c as [|d c IH]; simpl; [reflexivity|].
  destruct (p (serialize_doc d)); simpl; now rewrite IH.
Qed.

(** Each bucket keeps the order of the cursor: with [sort = "time"] the
    events of a bucket are in ascending order of [registration_start], ties
    by [event_start]; with [sort = "recent"] in descending order of the
    creation timestamp. *)
Theorem buckets_keep_order
  (db : Store) (now : datetime) (category registration_window : option string)
  (limit : Z) (sort : option string) (R : Doc Event.t -> Doc Event.t -> Prop)
  (bucket : Listing -> list SerializedEvent.t) :
  (sort = Some "time" /\ R = time_order) \/
  (sort = Some "recent" /\ R = recent_order) ->
  bucket = open \/ bucket = upcoming \/ bucket = closed ->
  exists l,
    bucket (list_events db now category sort registration_window limit)
    = map serialize_doc l /\
    StronglySorted R l /\
    (forall d, In d l ->
       In d (candidates db now category sort registration_window limit)).
Proof.
  intros HR Hb.
  assert (Hs : StronglySorted R
                 (candidates db now category sort registration_window limit)).
  { unfold candidates. apply StronglySorted_firstn.
    destruct HR as [ [ -> -> ] | [ -> -> ] ]; unfold apply_sort; simpl is_str; cbv iota.
    - apply (StronglySorted_impl (fun a b => time_leb a b = true));
        [exact time_leb_order|].
      apply sort_by_sorted; [exact time_leb_total | exact time_leb_trans].
    - apply (StronglySorted_impl (fun a b => recent_leb a b = true));
        [exact recent_leb_order|].
      apply sort_by_sorted.
      + intros a b. apply dt_leb_total.
      + intros a b c Hab Hbc. unfold recent_leb in *.
        eapply dt_leb_trans; eassumption. }
  unfold list_events.
  destruct Hb as [ -> | [ -> | -> ] ]; cbn [open upcoming closed];
    rewrite filter_map_serialize; eexists; (split; [reflexivity|]);
    (split; [now apply StronglySorted_filter|]);
    intros d Hd; now apply filter_In in Hd.
Qed.

Lemma buckets_keep_order_witness :
  exists l,
    open (list_events sample_db feb None (Some "recent") None 10)
    = map serialize_doc l /\
    StronglySorted recent_order l /\
    (forall d, In d l -> In d (candidates sample_db feb None (Some "recent") None 10)).
Proof.
  exact (buckets_keep_order sample_db feb None None 10 (Some "recent") recent_order
           open (or_intror (conj eq_refl eq_refl)) (or_introl eq_refl)).
Defined.

(** ** More on the mutators *)

Lemma update_one_unmatched {A : Type} (k : oid) (upd : A -> A) (c : Collection A) :
  find_one k c = None -> fst (update_one k upd c) = c.
Proof.
  unfold find_one. induction c as [|d c IH]; simpl; [reflexivity|].
  destruct (has_id k d); [discriminate|].
  intros H. destruct (update_one k upd c) as [c' n]. simpl in *.
  now rewrite IH.
Qed.

Lemma update_one_twice {A : Type} (k : oid) (f g : A -> A) (c : Collection A) :
  (forall x, g (f x) = g x) ->
  fst (update_one k g (fst (update_one k f c))) = fst (update_one k g c).
Proof.
  intros Hgf. induction c as [|d c IH]; simpl; [reflexivity|].
  destruct (has_id k d) eqn:Hd; simpl.
  - unfold has_id in *. simpl. rewrite Hd. simpl. now rewrite Hgf.
  - destruct (update_one k f c) as [c1 n1]. simpl in *. rewrite Hd.
    destruct (update_one k g c1) as [c2 n2].
    destruct (update_one k g c) as [c3 n3]. simpl in *. now rewrite IH.
Qed.

Lemma update_one_keys {A : Type} (k : oid) (upd : A -> A) (c : Collection A) :
  keys (fst (update_one k upd c)) = keys c.
Proof.
  unfold keys. induction c as [|d c IH]; simpl; [reflexivity|].
  destruct (has_id k d); simpl; [reflexivity|].
  destruct (update_one k upd c) as [c' n]. simpl in *. now rewrite IH.
Qed.

Lemma update_one_in {A : Type} (k : oid) (upd : A -> A) (c : Collection A)
  (d : Doc A) :
  NoDup (keys c) -> In d (fst (update_one k upd c)) -> _id d = k ->
  exists d0, In d0 c /\ d = mkDoc (_id d0) (created_at d0) (upd (fields d0)).
Proof.
  unfold keys. induction c as [|x c IH]; simpl; [tauto|].
  intros Hnd Hin Hk. inversion Hnd as [|? ? Hx Hnd']; subst.
  destruct (has_id (_id d) x) eqn:Hhx; simpl in Hin.
  - destruct Hin as [<-|Hin]; [exists x; auto|].
    exfalso. apply Hx. unfold has_id in Hhx. apply String.eqb_eq in Hhx.
    rewrite Hhx. now apply in_map.
  - destruct (update_one (_id d) upd c) as [c' n] eqn:Hu. simpl in *.
    destruct Hin as [->|Hin].
    + unfold has_id in Hhx. now rewrite String.eqb_refl in Hhx.
    + destruct (IH Hnd' Hin eq_refl) as (d0 & Hd0 & E). exists d0. auto.
Qed.

Lemma find_one_In {A : Type} (k : oid) (c : Collection A) (d : Doc A) :
  find_one k c = Some d -> In d c /\ _id d = k.
Proof.
  unfold find_one. intros H. apply find_some in H. destruct H as [Hin Hk].
  split; [assumption|]. now apply String.eqb_eq in Hk.
Qed.

Lemma find_one_fresh {A : Type} (k : oid) (c : Collection A) :
  ~ In k (keys c) -> find_one k c = None.
Proof.
  intros H. destruct (find_one k c) as [d|] eqn:E; [|reflexivity].
  apply find_one_In in E. destruct E as [Hin <-].
  exfalso. apply H. unfold keys. now apply in_map.
Qed.

Lemma find_one_app {A : Type} (k : oid) (c : Collection A) (d : Doc A) :
  find_one k c = None -> _id d = k -> find_one k (c ++ [d])%list = Some d.
Proof.
  unfold find_one. induction c as [|x c IH]; simpl.
  - intros _ Hk. unfold has_id. rewrite Hk, String.eqb_refl. reflexivity.
  - destruct (has_id k x); [discriminate | auto].
Qed.

Section MutatorsMore.

Variable ObjectId : string -> option oid.

(** An endpoint that answers with an error has changed nothing: after a
    400, 404 or 401 of [verify_organization], [approve_event] or
    [create_event] the store is the one before the call. *)
Theorem failure_keeps_store (db : Store) (vp : VerifyOrgRequest.t)
  (ap : ApproveEventRequest.t) (new_id : oid) (stamp : datetime)
  (cp : EventCreateRequest.t) (status : Z) (detail : string) :
  (fst (verify_organization ObjectId db vp) = HTTPException status detail ->
   snd (verify_organization ObjectId db vp) = db) /\
  (fst (approve_event ObjectId db ap) = HTTPException status detail ->
   snd (approve_event ObjectId db ap) = db) /\
  (fst (create_event ObjectId new_id stamp db cp) = HTTPException status detail ->
   snd (create_event ObjectId new_id stamp db cp) = db).
Proof.
  split; [|split].
  - unfold verify_organization.
    destruct (ObjectId (VerifyOrgRequest.org_id vp)) as [k|]; [|reflexivity].
    pose proof (update_one_matched k (set_verified (VerifyOrgRequest.verified vp))
                  (organization db)) as Hm.
    pose proof (update_one_unmatched k (set_verified (VerifyOrgRequest.verified vp))
                  (organization db)) as Hu.
    destruct (update_one k _ (organization db)) as [orgs n]. simpl in *.
    destruct (find_one k (organization db)); subst n; simpl; [discriminate|].
    intros _. rewrite Hu by reflexivity. now destruct db.
  - unfold approve_event.
    destruct (ObjectId (ApproveEventRequest.event_id ap)) as [k|]; [|reflexivity].
    pose proof (update_one_matched k
                  (Event.set_approval (ApproveEventRequest.approve ap) "admin")
                  (event db)) as Hm.
    pose proof (update_one_unmatched k
                  (Event.set_approval (ApproveEventRequest.approve ap) "admin")
                  (event db)) as Hu.
    destruct (update_one k _ (event db)) as [events n]. simpl in *.
    destruct (find_one k (event db)); subst n; simpl; [discriminate|].
    intros _. rewrite Hu by reflexivity. now destruct db.
  - unfold create_event.
    destruct (ObjectId (EventCreateRequest.organization_token cp)) as [k|];
      [|reflexivity].
    destruct (find_one k (organization db)); [discriminate | reflexivity].
Qed.

(** The last approval decides: approving an event and then approving or
    un-approving it again leaves the store that the second call alone
    leaves; the same holds for two verifications of one organization. *)
Theorem last_write_wins (db : Store) (id_ : string) (a1 a2 v1 v2 : bool) :
  snd (approve_event ObjectId
         (snd (approve_event ObjectId db (ApproveEventRequest.mk id_ a1)))
         (ApproveEventRequest.mk id_ a2))
  = snd (approve_event ObjectId db (ApproveEventRequest.mk id_ a2)) /\
  snd (verify_organization ObjectId
         (snd (verify_organization ObjectId db (VerifyOrgRequest.mk id_ v1)))
         (VerifyOrgRequest.mk id_ v2))
  = snd (verify_organization ObjectId db (VerifyOrgRequest.mk id_ v2)).
Proof.
  rewrite !approve_event_store, !verify_organization_store.
  cbn [ApproveEventRequest.event_id ApproveEventRequest.approve
       VerifyOrgRequest.org_id VerifyOrgRequest.verified].
  destruct (ObjectId id_) as [k|]; [|split; reflexivity].
  cbn [organization admin event]. split; f_equal; now apply update_one_twice.
Qed.

(** The auto-approval follows the latest verification: once
    [verify_organization] has set an organization's flag to [v], the next
    event the organization creates is answered with [approved = v]. *)
Theorem verify_then_create (db : Store) (id_ : string) (v : bool) (k : oid)
  (org : Doc Organization.t) (new_id : oid) (stamp : datetime)
  (cp : EventCreateRequest.t) :
  ObjectId id_ = Some k ->
  find_one k (organization db) = Some org ->
  ObjectId (EventCreateRequest.organization_token cp) = Some k ->
  fst (verify_organization ObjectId db (VerifyOrgRequest.mk id_ v))
  = Return (mkSuccess true) /\
  fst (create_event ObjectId new_id stamp
         (snd (verify_organization ObjectId db (VerifyOrgRequest.mk id_ v))) cp)
  = Return (mkCreated new_id v).
Proof.
  intros Hid Horg Htok. split.
  - unfold verify_organization. cbn [VerifyOrgRequest.org_id]. rewrite Hid.
    pose proof (update_one_matched k
                  (set_verified (VerifyOrgRequest.verified (VerifyOrgRequest.mk id_ v)))
                  (organization db)) as Hm.
    destruct (update_one k _ (organization db)) as [orgs n]. simpl in Hm.
    rewrite Horg in Hm. subst n. reflexivity.
  - rewrite verify_organization_store. cbn [VerifyOrgRequest.org_id]. rewrite Hid.
    unfold create_event. rewrite Htok. cbn [organization].
    rewrite (update_one_found k _ _ org Horg). reflexivity.
Qed.

(** The life of a pending event: an event created under a fresh key can be
    approved by that key, and is then stored approved, with
    [approved_by = "admin"], and with [is_org_verified] still the value
    the organization's flag had when the event was created. *)
Theorem create_then_approve (db : Store) (new_id : oid) (stamp : datetime)
  (cp : EventCreateRequest.t) (k : oid) (org : Doc Organization.t) :
  ObjectId (EventCreateRequest.organization_token cp) = Some k ->
  find_one k (organization db) = Some org ->
  ObjectId new_id = Some new_id ->
  ~ In new_id (keys (event db)) ->
  let db1 := snd (create_event ObjectId new_id stamp db cp) in
  let call := approve_event ObjectId db1 (ApproveEventRequest.mk new_id true) in
  fst call = Return (mkSuccess true) /\
  exists ev,
    find_one new_id (event (snd call)) = Some (mkDoc new_id stamp ev) /\
    Event.approved ev = true /\
    Event.approved_by ev = Some "admin" /\
    Event.is_org_verified ev = Some (Organization.verified (fields org)) /\
    Event.organization_id ev = _id org.
Proof.
  intros Htok Horg Hkey Hfresh db1 call.
  assert (Hdb1 : exists ev0,
             event db1 = (event db ++ [mkDoc new_id stamp ev0])%list /\
             Event.is_org_verified ev0 = Some (Organization.verified (fields org)) /\
             Event.organization_id ev0 = _id org).
  { subst db1. unfold create_event. rewrite Htok, Horg. simpl.
    eexists. split; [reflexivity|]. split; reflexivity. }
  destruct Hdb1 as (ev0 & Hev & Hv & Ho).
  assert (Hfind : find_one new_id (event db1) = Some (mkDoc new_id stamp ev0)).
  { rewrite Hev. apply find_one_app; [now apply find_one_fresh | reflexivity]. }
  split.
  - subst call. unfold approve_event. cbn [ApproveEventRequest.event_id]. rewrite Hkey.
    pose proof (update_one_matched new_id
                  (Event.set_approval
                     (ApproveEventRequest.approve (ApproveEventRequest.mk new_id true))
                     "admin") (event db1)) as Hm.
    destruct (update_one new_id _ (event db1)) as [events n]. simpl in Hm.
    rewrite Hfind in Hm. subst n. reflexivity.
  - subst call.
    rewrite (approve_event_sets ObjectId db1 (ApproveEventRequest.mk new_id true)
               new_id _ Hkey Hfind).
    eexists. split; [reflexivity|]. simpl. auto.
Qed.

(** Approval is what shows an event and what hides it.  Where the store
    keys are unique: after an un-approval by key no listing has an event
    of that key; after an approval of an event of the store, a listing
    with no filter and a limit that covers the store has it. *)
Theorem approval_decides_visibility (db : Store) (id_ : string) (k : oid)
  (now : datetime) (category sort registration_window : option string) (limit : Z) :
  NoDup (keys (event db)) ->
  ObjectId id_ = Some k ->
  (let db' := snd (approve_event ObjectId db (ApproveEventRequest.mk id_ false)) in
   let r := list_events db' now category sort registration_window limit in
   forall s, In s (open r) \/ In s (upcoming r) \/ In s (closed r) ->
             SerializedEvent.id s <> k) /\
  (let db' := snd (approve_event ObjectId db (ApproveEventRequest.mk id_ true)) in
   let r := list_events db' now None sort None limit in
   forall d, find_one k (event db) = Some d ->
             (List.length (event db) <= Z.to_nat (clamp_limit limit))%nat ->
             exists s, SerializedEvent.id s = k /\
                       (In s (open r) \/ In s (upcoming r) \/ In s (closed r))).
Proof.
  intros Hnd Hid. split.
  - intros db' r s Hs Hk.
    apply listed_event_origin in Hs. destruct Hs as (d & Hin & -> & Ha & _).
    subst db'. rewrite approve_event_store in Hin.
    cbn [ApproveEventRequest.event_id ApproveEventRequest.approve] in Hin.
    rewrite Hid in Hin. cbn [event] in Hin.
    apply update_one_in in Hin; [|assumption|exact Hk].
    destruct Hin as (d0 & _ & ->). simpl in Ha. discriminate.
  - intros db' r d Hd Hlen.
    pose proof (approve_event_sets ObjectId db (ApproveEventRequest.mk id_ true)
                  k d Hid Hd) as Hfind.
    fold db' in Hfind. cbn [ApproveEventRequest.approve] in Hfind.
    apply find_one_In in Hfind. destruct Hfind as [Hin Hk].
    set (d' := mkDoc (_id d) (created_at d) (Event.set_approval true "admin" (fields d)))
      in *.
    assert (Hlen' : List.length (event db') = List.length (event db)).
    { subst db'. rewrite approve_event_store.
      cbn [ApproveEventRequest.event_id]. rewrite Hid. cbn [event].
      rewrite <- (length_map _id), <- (length_map _id (event db)).
      f_equal. apply update_one_keys. }
    assert (Hc : In d' (candidates db' now None sort None limit)).
    { unfold candidates. rewrite firstn_all2.
      - apply (Permutation_in _ (Permutation_sym (apply_sort_perm sort _))).
        apply filter_In. split; [assumption | reflexivity].
      - rewrite apply_sort_length.
        etransitivity; [apply filter_length_le|]. lia. }
    exists (serialize_doc d'). split; [exact Hk|].
    pose proof (some_bucket (isoformat now) (serialize_doc d')) as Hb.
    rewrite !orb_true_iff in Hb. subst r. unfold list_events.
    cbn [open upcoming closed]. rewrite !in_bucket by assumption. tauto.
Qed.

End MutatorsMore.

Lemma failure_keeps_store_witness :
  snd (verify_organization hex_ObjectId sample_db
         (VerifyOrgRequest.mk "not-a-valid-id" true)) = sample_db.
Proof.
  exact (proj1 (failure_keeps_store hex_ObjectId sample_db
                  (VerifyOrgRequest.mk "not-a-valid-id" true)
                  (ApproveEventRequest.mk "" true) "" jan sample_create
                  400 "Invalid organization id") eq_refl).
Defined.

Lemma verify_then_create_witness :
  fst (verify_organization hex_ObjectId sample_db
         (VerifyOrgRequest.mk "AAAAAAAAAAAAAAAAAAAAAAAA" true))
  = Return (mkSuccess true) /\
  fst (create_event hex_ObjectId "e00000000000000000000009" feb
         (snd (verify_organization hex_ObjectId sample_db
                 (VerifyOrgRequest.mk "AAAAAAAAAAAAAAAAAAAAAAAA" true)))
         (EventCreateRequest.mk "Fair" "A fair" None None "Yard" apr None feb mar
            "cultural" "aaaaaaaaaaaaaaaaaaaaaaaa"))
  = Return (mkCreated "e00000000000000000000009" true).
Proof.
  exact (verify_then_create hex_ObjectId sample_db "AAAAAAAAAAAAAAAAAAAAAAAA" true
           "aaaaaaaaaaaaaaaaaaaaaaaa" org_a "e00000000000000000000009" feb
           (EventCreateRequest.mk "Fair" "A fair" None None "Yard" apr None feb mar
              "cultural" "aaaaaaaaaaaaaaaaaaaaaaaa")
           eq_refl eq_refl eq_refl).
Defined.

Lemma sample_keys_fresh : ~ In "e00000000000000000000009" (keys (event sample_db)).
Proof. simpl. intros [H|[H|[H|[]]]]; discriminate. Qed.

Lemma sample_keys_nodup : NoDup (keys (event sample_db)).
Proof.
  simpl. repeat constructor; simpl; intuition discriminate.
Qed.

Lemma create_then_approve_witness :
  fst (approve_event hex_ObjectId
         (snd (create_event hex_ObjectId "e00000000000000000000009" feb sample_db
                 sample_create))
         (ApproveEventRequest.mk "e00000000000000000000009" true))
  = Return (mkSuccess true).
Proof.
  exact (proj1 (create_then_approve hex_ObjectId sample_db "e00000000000000000000009"
                  feb sample_create "bbbbbbbbbbbbbbbbbbbbbbbb" org_b
                  eq_refl eq_refl eq_refl sample_keys_fresh)).
Defined.

Lemma approval_decides_visibility_witness :
  exists s, SerializedEvent.id s = "e00000000000000000000003" /\
    (In s (open (list_events
                   (snd (approve_event hex_ObjectId sample_db
                           (ApproveEventRequest.mk "e00000000000000000000003" true)))
                   feb None (Some "time") None 10)) \/
     In s (upcoming (list_events
                   (snd (approve_event hex_ObjectId sample_db
                           (ApproveEventRequest.mk "e00000000000000000000003" true)))
                   feb None (Some "time") None 10)) \/
     In s (closed (list_events
                   (snd (approve_event hex_ObjectId sample_db
                           (ApproveEventRequest.mk "e00000000000000000000003" true)))
                   feb None (Some "time") None 10))).
Proof.
  apply (proj2 (approval_decides_visibility hex_ObjectId sample_db
                  "e00000000000000000000003" "e00000000000000000000003"
                  feb None (Some "time") None 10 sample_keys_nodup eq_refl)
           ev_pending).
  - reflexivity.
  - vm_compute. lia.
Defined.

(** ** Accounts *)

Lemma find_app_none {A : Type} (p : A -> bool) (l : list A) (x : A) :
  List.find p l = None -> p x = true -> List.find p (l ++ [x]) = Some x.
Proof.
  induction l as [|y l IH]; simpl; intros H Hx; [now rewrite Hx|].
  destruct (p y); [discriminate | auto].
Qed.

Lemma find_app_some {A : Type} (p : A -> bool) (l l' : list A) (x : A) :
  List.find p l = Some x -> List.find p (l ++ l') = Some x.
Proof.
  induction l as [|y l IH]; simpl; [discriminate|].
  destruct (p y); auto.
Qed.

Lemma find_none_not_in {A : Type} (p : A -> bool) (l : list A) (x : A) :
  List.find p l = None -> In x l -> p x = false.
Proof. intros H Hin. exact (find_none p l H x Hin). Qed.

Section AccountsMore.

Variable sha256_hash : string -> string.
Variable HttpUrl : string -> option string.
Variable ObjectId : string -> option oid.

(** Registration and login fit together: an organization registered under
    an email no organization has yet logs in with the same password, gets
    the key of its document as token and is reported unverified; a
    password with another digest is turned away with 401. *)
Theorem register_then_login (new_id : oid) (stamp : datetime) (db : Store)
  (payload : OrgRegisterRequest.t) (w : option string) :
  List.find (org_has_email (OrgRegisterRequest.email payload)) (organization db)
  = None ->
  validate_website HttpUrl (OrgRegisterRequest.website payload) = Some w ->
  exists db1,
    org_register sha256_hash HttpUrl new_id stamp db payload
    = Some (Return (mkRegistered new_id false), db1) /\
    org_login sha256_hash db1
      (LoginRequest.mk (OrgRegisterRequest.email payload)
                       (OrgRegisterRequest.password payload))
    = Return (mkOrgSession new_id (OrgRegisterRequest.email payload) false
                (OrgRegisterRequest.name payload)) /\
    (forall other,
       sha256_hash other <> sha256_hash (OrgRegisterRequest.password payload) ->
       org_login sha256_hash db1
         (LoginRequest.mk (OrgRegisterRequest.email payload) other)
       = HTTPException 401 "Invalid credentials").
Proof.
  intros Hnew Hw. unfold org_register. rewrite Hnew, Hw. simpl.
  eexists. split; [reflexivity|].
  unfold org_login. cbn [organization LoginRequest.email LoginRequest.password].
  rewrite (find_app_none _ _ _ Hnew)
    by (unfold org_has_email; simpl; apply String.eqb_refl).
  cbn [fields _id Organization.password_hash Organization.email
       Organization.verified Organization.name].
  split.
  - now rewrite String.eqb_refl.
  - intros other Hne.
    destruct (String.eqb_spec (sha256_hash (OrgRegisterRequest.password payload))
                (sha256_hash other)) as [E|E]; [congruence | reflexivity].
Qed.

(** An email registers once: while an organization has the email, a
    registration under it is answered with 400 and changes nothing; so a
    second registration after a successful one fails, whatever else it
    carries. *)
Theorem register_once (new_id new_id2 : oid) (stamp stamp2 : datetime) (db : Store)
  (payload payload2 : OrgRegisterRequest.t) (r : Response Registered) (db1 : Store) :
  OrgRegisterRequest.email payload2 = OrgRegisterRequest.email payload ->
  org_register sha256_hash HttpUrl new_id stamp db payload = Some (r, db1) ->
  org_register sha256_hash HttpUrl new_id2 stamp2 db1 payload2
  = Some (HTTPException 400 "Email already registered", db1).
Proof.
  intros He H. unfold org_register in *. rewrite He.
  destruct (List.find (org_has_email (OrgRegisterRequest.email payload))
              (organization db)) as [o|] eqn:Hf.
  - injection H as _ <-. now rewrite Hf.
  - destruct (validate_website HttpUrl (OrgRegisterRequest.website payload));
      [|discriminate].
    simpl in H. injection H as _ <-. cbn [organization].
    rewrite (find_app_none _ _ _ Hf)
      by (unfold org_has_email; simpl; apply String.eqb_refl).
    reflexivity.
Qed.

(** Every token [org_login] gives out is the key of a stored organization
    with the email of the request and the digest of its password; every
    refusal is the same 401, whether the email is unknown or the password
    wrong. *)
Theorem org_login_sound (db : Store) (payload : LoginRequest.t) :
  (forall s, org_login sha256_hash db payload = Return s ->
     exists org, In org (organization db) /\
       Organization.email (fields org) = LoginRequest.email payload /\
       Organization.password_hash (fields org)
       = sha256_hash (LoginRequest.password payload) /\
       token s = _id org /\
       session_verified s = Organization.verified (fields org)) /\
  (forall status detail,
     org_login sha256_hash db payload = HTTPException status detail ->
     status = 401 /\ detail = "Invalid credentials").
Proof.
  unfold org_login.
  destruct (List.find (org_has_email (LoginRequest.email payload))
              (organization db)) as [org|] eqn:Hf.
  - apply find_some in Hf. destruct Hf as [Hin He].
    apply String.eqb_eq in He.
    destruct (String.eqb_spec (Organization.password_hash (fields org))
                (sha256_hash (LoginRequest.password payload))) as [Hp|Hp]; simpl.
    + split; [|discriminate]. intros s [= <-]. exists org. simpl. auto.
    + split; [discriminate|]. intros status detail [= <- <-]. auto.
  - split; [discriminate|]. intros status detail [= <- <-]. auto.
Qed.

(** Emails stay unique: if no two organizations share an email, none do
    after a registration, and a verification changes no email at all. *)
Theorem emails_stay_unique (new_id : oid) (stamp : datetime) (db : Store)
  (payload : OrgRegisterRequest.t) (vp : VerifyOrgRequest.t) :
  let emails (s : Store) :=
    map (fun d => Organization.email (fields d)) (organization s) in
  (NoDup (emails db) ->
   forall r db1,
     org_register sha256_hash HttpUrl new_id stamp db payload = Some (r, db1) ->
     NoDup (emails db1)) /\
  emails (snd (verify_organization ObjectId db vp)) = emails db.
Proof.
  intros emails. split.
  - intros Hnd r db1 H. unfold org_register in H.
    destruct (List.find (org_has_email (OrgRegisterRequest.email payload))
                (organization db)) as [o|] eqn:Hf.
    + now injection H as _ <-.
    + destruct (validate_website HttpUrl (OrgRegisterRequest.website payload));
        [|discriminate].
      simpl in H. injection H as _ <-. subst emails. cbn [organization].
      rewrite map_app. simpl.
      apply (Permutation_NoDup (l := OrgRegisterRequest.email payload
               :: map (fun d => Organization.email (fields d)) (organization db))).
      * apply Permutation_cons_append.
      * constructor; [|assumption].
        intros Hin. apply in_map_iff in Hin. destruct Hin as (d & Hd & Hin).
        pose proof (find_none_not_in _ _ d Hf Hin) as Hp.
        unfold org_has_email in Hp. apply String.eqb_neq in Hp. congruence.
  - subst emails. rewrite verify_organization_store.
    destruct (ObjectId (VerifyOrgRequest.org_id vp)) as [k|]; [|reflexivity].
    cbn [organization].
    generalize (organization db). intros c.
    induction c as [|d c IH]; simpl; [reflexivity|].
    destruct (has_id k d); simpl; [reflexivity|].
    destruct (update_one k _ c) as [c' n]. simpl in *. now rewrite IH.
Qed.

(** A newly registered organization does not get its events out by
    itself: the event it creates with its token is answered
    [approved = false] and stored pending. *)
Theorem registered_org_is_pending (new_id : oid) (stamp : datetime) (db : Store)
  (payload : OrgRegisterRequest.t) (w : option string)
  (event_id : oid) (stamp2 : datetime) (cp : EventCreateRequest.t) :
  List.find (org_has_email (OrgRegisterRequest.email payload)) (organization db)
  = None ->
  validate_website HttpUrl (OrgRegisterRequest.website payload) = Some w ->
  ~ In new_id (keys (organization db)) ->
  ObjectId (EventCreateRequest.organization_token cp) = Some new_id ->
  exists db1 db2 ev,
    org_register sha256_hash HttpUrl new_id stamp db payload
    = Some (Return (mkRegistered new_id false), db1) /\
    create_event ObjectId event_id stamp2 db1 cp
    = (Return (mkCreated event_id false), db2) /\
    event db2 = (event db ++ [mkDoc event_id stamp2 ev])%list /\
    Event.approved ev = false /\
    Event.is_org_verified ev = Some false /\
    Event.organization_id ev = new_id.
Proof.
  intros Hnew Hw Hfresh Htok. unfold org_register. rewrite Hnew, Hw. simpl.
  eexists. eexists. eexists. split; [reflexivity|].
  unfold create_event. rewrite Htok. cbn [organization].
  rewrite find_one_app by (first [now apply find_one_fresh | reflexivity]).
  simpl. repeat split.
Qed.

(** Seeding is idempotent: after [seed_admin] for an email, a second call
    for that email answers [{created: false}] and leaves the store as the
    first call left it; and no call changes organizations or events. *)
Theorem seed_admin_idempotent (id1 id2 : oid) (t1 t2 : datetime) (db : Store)
  (email p1 p2 : string) (n1 n2 : option string) :
  let db1 := snd (seed_admin sha256_hash id1 t1 db email p1 n1) in
  seed_admin sha256_hash id2 t2 db1 email p2 n2 = (mkSeeded false None, db1) /\
  organization db1 = organization db /\ event db1 = event db.
Proof.
  intros db1. subst db1. unfold seed_admin.
  destruct (List.find (admin_has_email email) (admin db)) as [a|] eqn:Hf; simpl.
  - rewrite Hf. auto.
  - rewrite (find_app_none _ _ _ Hf)
      by (unfold admin_has_email; simpl; apply String.eqb_refl).
    auto.
Qed.

End AccountsMore.

Lemma register_then_login_witness :
  exists db1,
    org_register sample_hash sample_url "d00000000000000000000001" feb sample_db
      sample_register
    = Some (Return (mkRegistered "d00000000000000000000001" false), db1) /\
    org_login sample_hash db1 (LoginRequest.mk "c@example.org" "secret")
    = Return (mkOrgSession "d00000000000000000000001" "c@example.org" false "Org C") /\
    (forall other,
       sample_hash other <> sample_hash "secret" ->
       org_login sample_hash db1 (LoginRequest.mk "c@example.org" other)
       = HTTPException 401 "Invalid credentials").
Proof.
  exact (register_then_login sample_hash sample_url "d00000000000000000000001" feb
           sample_db sample_register None eq_refl eq_refl).
Defined.

Lemma register_once_witness :
  org_register sample_hash sample_url "d00000000000000000000002" mar
    (mkStore (organization sample_db ++ [mkDoc "d00000000000000000000001" feb
        (Organization.mk "Org C" "c@example.org" (sample_hash "secret") false None None)])%list
       (admin sample_db) (event sample_db))
    sample_register
  = Some (HTTPException 400 "Email already registered",
          mkStore (organization sample_db ++ [mkDoc "d00000000000000000000001" feb
              (Organization.mk "Org C" "c@example.org" (sample_hash "secret") false
                 None None)])%list
            (admin sample_db) (event sample_db)).
Proof.
  exact (register_once sample_hash sample_url "d00000000000000000000001"
           "d00000000000000000000002" feb mar sample_db sample_register
           sample_register _ _ eq_refl eq_refl).
Defined.

Lemma org_login_sound_witness :
  exists org, In org (organization sample_db) /\
    Organization.email (fields org) = "b@example.org" /\
    Organization.password_hash (fields org) = "h2" /\
    "bbbbbbbbbbbbbbbbbbbbbbbb" = _id org /\
    true = Organization.verified (fields org).
Proof.
  exact (proj1 (org_login_sound (fun _ => "h2") sample_db
                  (LoginRequest.mk "b@example.org" "pw"))
           (mkOrgSession "bbbbbbbbbbbbbbbbbbbbbbbb" "b@example.org" true "Org B")
           eq_refl).
Defined.

Lemma emails_stay_unique_witness :
  NoDup (map (fun d => Organization.email (fields d))
           (organization sample_db ++ [mkDoc "d00000000000000000000001" feb
              (Organization.mk "Org C" "c@example.org" (sample_hash "secret") false
                 None None)])%list).
Proof.
  refine (proj1 (emails_stay_unique sample_hash sample_url hex_ObjectId
                   "d00000000000000000000001" feb sample_db sample_register
                   (VerifyOrgRequest.mk "" true))
            _ (Return (mkRegistered "d00000000000000000000001" false))
            (mkStore (organization sample_db ++ [mkDoc "d00000000000000000000001" feb
                        (Organization.mk "Org C" "c@example.org" (sample_hash "secret")
                           false None None)])%list
               (admin sample_db) (event sample_db))
            eq_refl).
  simpl. repeat constructor; simpl; intuition discriminate.
Defined.

Lemma registered_org_is_pending_witness :
  exists db1 db2 ev,
    org_register sample_hash sample_url "d00000000000000000000001" feb sample_db
      sample_register
    = Some (Return (mkRegistered "d00000000000000000000001" false), db1) /\
    create_event hex_ObjectId "e00000000000000000000009" mar db1
      (EventCreateRequest.mk "Fair" "A fair" None None "Yard" apr None feb mar
         "cultural" "D00000000000000000000001")
    = (Return (mkCreated "e00000000000000000000009" false), db2) /\
    event db2 = (event sample_db ++ [mkDoc "e00000000000000000000009" mar ev])%list /\
    Event.approved ev = false /\
    Event.is_org_verified ev = Some false /\
    Event.organization_id ev = "d00000000000000000000001".
Proof.
  apply (registered_org_is_pending sample_hash sample_url hex_ObjectId
           "d00000000000000000000001" feb sample_db sample_register None
           "e00000000000000000000009" mar
           (EventCreateRequest.mk "Fair" "A fair" None None "Yard" apr None feb mar
              "cultural" "D00000000000000000000001")).
  - reflexivity.
  - reflexivity.
  - simpl. intros [H|[H|[]]]; discriminate.
  - reflexivity.
Defined.

(** ** The category directory *)

Lemma string_compare_triple (a b c : string) :
  compare_triple (String.compare a b) (String.compare b c) (String.compare a c).
Proof.
  revert b c. induction a as [|x a IH]; intros [|y b] [|z c]; simpl;
    try (unfold compare_triple; repeat split; congruence).
  pose proof (compare_triple_lex _ _ _ _ _ _
                (compare_triple_N (N_of_ascii x) (N_of_ascii y) (N_of_ascii z))
                (IH b c)) as T.
  unfold Ascii.compare.
  destruct (N_of_ascii x ?= N_of_ascii y)%N, (N_of_ascii y ?= N_of_ascii z)%N,
    (N_of_ascii x ?= N_of_ascii z)%N; exact T.
Qed.

Lemma str_leb_trans (a b c : string) :
  str_leb a b = true -> str_leb b c = true -> str_leb a c = true.
Proof.
  apply (leb_of_trans String.compare). apply string_compare_triple.
Qed.

Lemma list_categories_in (db : Store) (c : string) :
  In c (list_categories db) <->
  c <> "" /\
  exists d, In d (event db) /\ Event.approved (fields d) = true /\
            Event.category (fields d) = c.
Proof.
  unfold list_categories, distinct. split.
  - intros H. apply (Permutation_in _ (sort_by_perm str_leb _)) in H.
    apply filter_In in H. destruct H as [H Hne].
    apply nodup_In in H. apply in_map_iff in H. destruct H as (d & <- & Hd).
    apply filter_In in Hd. destruct Hd as [Hin Hm].
    apply matches_parts in Hm. destruct Hm as (Ha & _).
    split.
    + apply String.eqb_neq. now destruct (String.eqb _ "").
    + exists d. auto.
  - intros (Hne & d & Hin & Ha & <-).
    apply (Permutation_in _ (Permutation_sym (sort_by_perm str_leb _))).
    apply filter_In. split.
    + apply nodup_In. apply in_map_iff. exists d. split; [reflexivity|].
      apply filter_In. split; [assumption|].
      unfold matches. rewrite Ha. reflexivity.
    + apply String.eqb_neq in Hne. now rewrite Hne.
Qed.

(** [GET /events/categories] gives exactly the non-empty categories of the
    approved events, each once, in ascending order. *)
Theorem list_categories_directory (db : Store) :
  (forall c, In c (list_categories db) <->
     c <> "" /\
     exists d, In d (event db) /\ Event.approved (fields d) = true /\
               Event.category (fields d) = c) /\
  NoDup (list_categories db) /\
  StronglySorted (fun a b => str_leb a b = true) (list_categories db).
Proof.
  split; [exact (list_categories_in db) | split].
  - unfold list_categories, distinct.
    apply (Permutation_NoDup (Permutation_sym (sort_by_perm str_leb _))).
    apply NoDup_filter. apply NoDup_nodup.
  - unfold list_categories. apply sort_by_sorted.
    + intros a b. apply String.leb_total.
    + exact str_leb_trans.
Qed.

Lemma list_categories_directory_witness :
  "tech" <> "" /\
  exists d, In d (event sample_db) /\ Event.approved (fields d) = true /\
            Event.category (fields d) = "tech".
Proof.
  apply (proj1 (list_categories_directory sample_db) "tech").
  vm_compute. auto.
Defined.

(** The directory and the listing agree: asking [GET /events] for a
    category of the directory always finds at least one event. *)
Theorem listed_category_has_events (db : Store) (now : datetime) (c : string)
  (sort : option string) (limit : Z) :
  In c (list_categories db) ->
  (1 <= count (list_events db now (Some c) sort None limit))%nat.
Proof.
  intros H. apply list_categories_in in H. destruct H as (Hne & d & Hin & Ha & Hc).
  unfold list_events. cbn [count].
  rewrite length_map, candidates_length.
  assert (Hm : In d (filter (matches (build_query now (Some c) None)) (event db))).
  { apply filter_In. split; [assumption|].
    unfold build_query, truthy. apply String.eqb_neq in Hne. rewrite Hne.
    simpl. unfold matches. cbn [q_approved q_category q_registration_start
                                q_registration_end opt_holds].
    rewrite Ha, Hc, String.eqb_refl. reflexivity. }
  pose proof (clamp_limit_range limit) as Hr.
  destruct (filter (matches (build_query now (Some c) None)) (event db));
    [destruct Hm | simpl; lia].
Qed.

Lemma listed_category_has_events_witness :
  (1 <= count (list_events sample_db feb (Some "cultural") (Some "recent") None 0))%nat.
Proof.
  apply (listed_category_has_events sample_db feb "cultural" (Some "recent") 0).
  vm_compute. auto.
Defined.

(** ** Serialization *)

(** [serialize_doc] loses nothing of an event document: two stored events
    with the same serialization are the same document. *)
Theorem serialize_doc_injective (d1 d2 : Doc Event.t) :
  wf_event_doc d1 = true -> wf_event_doc d2 = true ->
  serialize_doc d1 = serialize_doc d2 -> d1 = d2.
Proof.
  destruct d1 as [i1 c1 [t1 de1 p1 g1 v1 es1 ee1 rs1 re1 ca1 oi1 on1 a1 ab1 iv1]].
  destruct d2 as [i2 c2 [t2 de2 p2 g2 v2 es2 ee2 rs2 re2 ca2 oi2 on2 a2 ab2 iv2]].
  unfold wf_event_doc. cbn [fields created_at Event.event_start Event.event_end
    Event.registration_start Event.registration_end].
  rewrite !andb_true_iff.
  intros [[[[W1 W2] W3] W4] W5] [[[[V1 V2] V3] V4] V5] H.
  assert (i1 = i2) as -> by exact (f_equal SerializedEvent.id H).
  assert (t1 = t2) as -> by exact (f_equal SerializedEvent.title H).
  assert (de1 = de2) as -> by exact (f_equal SerializedEvent.description H).
  assert (p1 = p2) as -> by exact (f_equal SerializedEvent.poster_url H).
  assert (g1 = g2) as -> by exact (f_equal SerializedEvent.google_form_url H).
  assert (v1 = v2) as -> by exact (f_equal SerializedEvent.venue H).
  assert (ca1 = ca2) as -> by exact (f_equal SerializedEvent.category H).
  assert (oi1 = oi2) as -> by exact (f_equal SerializedEvent.organization_id H).
  assert (on1 = on2) as -> by exact (f_equal SerializedEvent.organization_name H).
  assert (a1 = a2) as -> by exact (f_equal SerializedEvent.approved H).
  assert (ab1 = ab2) as -> by exact (f_equal SerializedEvent.approved_by H).
  assert (iv1 = iv2) as -> by exact (f_equal SerializedEvent.is_org_verified H).
  assert (c1 = c2) as ->
    by exact (isoformat_inj c1 c2 W1 V1 (f_equal SerializedEvent.created_at H)).
  assert (es1 = es2) as ->
    by exact (isoformat_inj es1 es2 W2 V2 (f_equal SerializedEvent.event_start H)).
  assert (rs1 = rs2) as ->
    by exact (isoformat_inj rs1 rs2 W4 V4
                (f_equal SerializedEvent.registration_start H)).
  assert (re1 = re2) as ->
    by exact (isoformat_inj re1 re2 W5 V5
                (f_equal SerializedEvent.registration_end H)).
  assert (Hee : option_map isoformat ee1 = option_map isoformat ee2)
    by exact (f_equal SerializedEvent.event_end H).
  assert (ee1 = ee2) as ->.
  { destruct ee1 as [x|], ee2 as [y|]; try discriminate Hee; [|reflexivity].
    f_equal. apply isoformat_inj; try assumption.
    unfold option_map in Hee. congruence. }
  reflexivity.
Qed.

Lemma serialize_doc_injective_witness : ev_regular = ev_regular.
Proof.
  exact (serialize_doc_injective ev_regular ev_regular eq_refl eq_refl eq_refl).
Defined.
